(** * express-clone: the application layer and the request accessors

    A shallow embedding of [lib/express.js], [lib/application.js] and
    [lib/request.js].  JavaScript values are a small inductive type,
    objects are finite maps of own properties together with the
    properties they inherit, the applications live in a store indexed
    by identity, and dispatch is written in continuation-passing style,
    the way the source passes [next] and [done] around.  The values
    are the primitives, arrays, plain objects and functions.  What the
    prototypes of the builtins provide ([Object.prototype] and the
    like) is part of the model where the code calls it, and left out
    elsewhere. *)

From Stdlib Require Import ZArith Ascii String List Bool Lia.
From Stdlib Require Import FunctionalExtensionality.
From stdpp Require Import base option list strings gmap.

Local Open Scope string_scope.
Local Open Scope list_scope.
Set Warnings "-register-all".

(** ** JavaScript values *)

(** Applications and Routes are named by their index in the store. *)
Abbreviation app_id := nat (only parsing).

Inductive jsval : Type :=
| JUndefined
| JNull
| JBool (b : bool)
| JNum (z : Z)
| JStr (s : string)
| JArr (elems : list jsval)
| JObj (props : gmap string jsval)     (* a plain object, its own properties *)
| JFun (f : func)
with func : Type :=
| UserFn (id : nat) (arity : nat)      (* a function written by the embedder *)
| PropFn (id : nat) (arity : nat) (props : gmap string jsval)
                                       (* the same with properties of its own *)
| ExternFn (name : string)             (* a function of an external package *)
| QueryMw (parser : jsval)             (* query(parser), ./middleware/query *)
| InitMw (a : app_id)                  (* middleware.init(app) *)
| MountedApp (child : app_id)          (* closure of application.js:227 *)
| MountedObj (fn : jsval)              (* the same closure over another value *)
| AppFn (a : app_id).                  (* closure of express.js:30 *)

(** [typeof v === "function"] *)
Definition is_function (v : jsval) : bool :=
  match v with JFun _ => true | _ => false end.

(** ToBoolean, as used by [!v], [a || b] and [Boolean(v)] *)
Definition truthy (v : jsval) : bool :=
  match v with
  | JUndefined | JNull => false
  | JBool b => b
  | JNum z => negb (z =? 0)%Z
  | JStr s => negb (String.eqb s "")
  | JArr _ | JObj _ | JFun _ => true
  end.

(** [null != v] is false exactly on [null] and [undefined] *)
Definition not_nullish (v : jsval) : bool :=
  match v with JUndefined | JNull => false | _ => true end.

(** [a || b] *)
Definition js_or (a b : jsval) : jsval := if truthy a then a else b.

(** [typeof v] is "object" or "function", and [v] is not [null] *)
Definition is_object (v : jsval) : bool :=
  match v with JArr _ | JObj _ | JFun _ => true | _ => false end.

(** [v === null] *)
Definition is_null (v : jsval) : bool :=
  match v with JNull => true | _ => false end.

(** [v[k]] on a plain object and on a function that carries
    properties of its own.  The other functions of the model are
    closures without further properties, and what the primitives, the
    arrays and the functions inherit is left out. *)
Definition prop_of (v : jsval) (k : string) : jsval :=
  match v with
  | JObj props | JFun (PropFn _ _ props) => default JUndefined (props !! k)
  | _ => JUndefined
  end.

(** The value of [new TypeError(msg)] *)
Definition type_error_value (msg : string) : jsval :=
  JObj {[ "name" := JStr "TypeError"; "message" := JStr msg ]}.

(** Exceptions a call can throw *)
Inductive exn : Type :=
| TypeError (msg : string)
| ReferenceError (msg : string)
| ContractViolation (msg : string).

Inductive result (A : Type) : Type :=
| Ok (a : A)
| Throw (e : exn).
Arguments Ok {A} a.
Arguments Throw {A} e.

(** [String.prototype.toLowerCase] on the ASCII letters *)
Definition lower_ascii (c : ascii) : ascii :=
  let n := nat_of_ascii c in
  if (65 <=? n)%nat && (n <=? 90)%nat then ascii_of_nat (n + 32) else c.

Fixpoint toLowerCase (s : string) : string :=
  match s with
  | EmptyString => EmptyString
  | String c r => String (lower_ascii c) (toLowerCase r)
  end.

(** ** Objects: own properties and what the prototype chain provides *)

Record js_object : Type := mkObject {
  own : gmap string jsval;
  inherited : gmap string jsval
}.

(** [o[k]] *)
Definition get_prop (o : js_object) (k : string) : jsval :=
  match own o !! k with
  | Some v => v
  | None => default JUndefined (inherited o !! k)
  end.

(** [Object.prototype.hasOwnProperty], applied to [o] and [k] *)
Definition hasOwnProperty (o : js_object) (k : string) : bool :=
  bool_decide (is_Some (own o !! k)).

(** The function object [Object.prototype.hasOwnProperty] *)
Definition Object_hasOwnProperty : func :=
  ExternFn "Object.prototype.hasOwnProperty".

Definition is_Object_hasOwnProperty (f : func) : bool :=
  match f with
  | ExternFn name => String.eqb name "Object.prototype.hasOwnProperty"
  | _ => false
  end.

(** ** lib/request.js *)

Module Request.

Section Accessors.

(** What a plain object literal [{}] inherits from [Object.prototype]. *)
Variable Object_prototype : gmap string jsval.

(** The call [f.call(o, k)] of a function that is not
    [Object.prototype.hasOwnProperty]: code of the embedder. *)
Variable call_method : func -> js_object -> string -> result jsval.

Definition empty_object : js_object := mkObject ∅ Object_prototype.

(** The receiver of the accessors.  [req_header] is what [this.header]
    evaluates to: on a request of the framework the function [header]
    below, found on the request prototype (request.js:56). *)
Record request : Type := mkRequest {
  req_headers : js_object;
  req_header : js_object;
  req_params : option js_object;
  req_body : option js_object;
  req_query : option js_object
}.

(** The function object [header]: a function of one parameter.  No
    property of a function, own or inherited, is called [referer]. *)
Definition header_function : js_object :=
  mkObject {[ "name" := JStr "header"; "length" := JNum 1 ]} ∅.

(** request.js:56-74, [req.get = req.header = function header(name)] *)
Definition header (this : request) (name : jsval) : result jsval :=
  if negb (truthy name) then
    Throw (TypeError "name argument is required to req.get")
  else
    match name with
    | JStr s =>
        let lc := toLowerCase s in
        if String.eqb lc "referer" || String.eqb lc "referrer" then
          Ok (js_or (get_prop (req_headers this) "referrer")
                    (get_prop (req_header this) "referer"))
        else Ok (get_prop (req_headers this) lc)
    | _ => Throw (TypeError "name must be a string to req.get")
    end.

(** [bag || {}] *)
Definition or_empty (bag : option js_object) : js_object :=
  default empty_object bag.

(** [o.hasOwnProperty(k)]: the method is the property that [o] has
    under that name, own or inherited; a value that is no function
    cannot be called. *)
Definition call_hasOwnProperty (o : js_object) (k : string) : result jsval :=
  match get_prop o "hasOwnProperty" with
  | JFun f =>
      if is_Object_hasOwnProperty f then Ok (JBool (hasOwnProperty o k))
      else call_method f o k
  | _ => Throw (TypeError "params.hasOwnProperty is not a function")
  end.

(** request.js:173-188, [req.param(name, defaultValue)].  The
    deprecation notice it prints is not part of the value.  The
    operator [&&] calls [hasOwnProperty] when [params[name]] is
    neither [null] nor [undefined], and not otherwise. *)
Definition param (this : request) (name : string) (defaultValue : jsval)
  : result jsval :=
  let params := or_empty (req_params this) in
  let body := or_empty (req_body this) in
  let query := or_empty (req_query this) in
  match (if not_nullish (get_prop params name)
         then call_hasOwnProperty params name
         else Ok (JBool false)) with
  | Throw e => Throw e
  | Ok owned =>
      if truthy owned then Ok (get_prop params name)
      else if not_nullish (get_prop body name) then Ok (get_prop body name)
      else if not_nullish (get_prop query name) then Ok (get_prop query name)
      else Ok defaultValue
  end.

(** The precedence order in the words of the documentation, on the
    bags as the request has them: the first source that has a value for
    [name] wins.  The parameters count with their own properties, the
    body and the query with all they have; a bag that is missing counts
    as the empty object [{}], which has no property of its own. *)
Definition own_value (bag : option js_object) (k : string) : option jsval :=
  match bag with
  | Some o =>
      match own o !! k with
      | Some v => if not_nullish v then Some v else None
      | None => None
      end
  | None => None
  end.

Definition any_value (bag : option js_object) (k : string) : option jsval :=
  let v := match bag with
           | Some o => get_prop o k
           | None => default JUndefined (Object_prototype !! k)
           end in
  if not_nullish v then Some v else None.

Definition first_some (l : list (option jsval)) (d : jsval) : jsval :=
  default d (foldr (fun o acc => match o with Some v => Some v | None => acc end)
                   None l).

Definition param_spec (this : request) (name : string) (d : jsval) : jsval :=
  first_some [ own_value (req_params this) name;
               any_value (req_body this) name;
               any_value (req_query this) name ] d.

(** The bag of the parameters has the method of [Object.prototype]
    under the name [hasOwnProperty], as every plain object has that
    does not define the name itself. *)
Definition standard_hasOwnProperty (bag : option js_object) : Prop :=
  match bag with
  | Some o => get_prop o "hasOwnProperty"
  | None => default JUndefined (Object_prototype !! "hasOwnProperty")
  end = JFun Object_hasOwnProperty.

(** The bag, the empty object when it is missing, does not have [k]
    as a property of its own and inherits it with the value [v]. *)
Definition inherits (bag : option js_object) (k : string) (v : jsval) : Prop :=
  match bag with
  | Some o => own o !! k = None /\ inherited o !! k = Some v
  | None => Object_prototype !! k = Some v
  end.

(** The request with an empty object for every bag that is missing. *)
Definition with_empty_bags (this : request) : request :=
  mkRequest (req_headers this) (req_header this)
    (Some (default (mkObject ∅ Object_prototype) (req_params this)))
    (Some (default (mkObject ∅ Object_prototype) (req_body this)))
    (Some (default (mkObject ∅ Object_prototype) (req_query this))).

End Accessors.

(** A request that carries the header [referer] alone. *)
Definition referer_request : request :=
  mkRequest (mkObject {[ "referer" := JStr "http://example.com/" ]} ∅)
            header_function None None None.

(** An [Object.prototype] with two of its methods. *)
Definition small_Object_prototype : gmap string jsval :=
  {[ "hasOwnProperty" := JFun Object_hasOwnProperty;
     "toString" := JFun (ExternFn "Object.prototype.toString") ]}.

(** No function of the embedder is called in the examples. *)
Definition no_method (f : func) (o : js_object) (k : string) : result jsval :=
  Ok JUndefined.

(** A request matched by a route with the parameter [id], with a body
    and a query string. *)
Definition param_request : request :=
  mkRequest (mkObject ∅ ∅) header_function
    (Some (mkObject {[ "id" := JStr "5" ]} small_Object_prototype))
    (Some (mkObject {[ "id" := JStr "body"; "name" := JStr "tobi" ]}
                    small_Object_prototype))
    (Some (mkObject {[ "name" := JStr "loki"; "page" := JStr "2" ]}
                    small_Object_prototype)).

(** The same with a parameter that is called [hasOwnProperty]. *)
Definition shadowed_request : request :=
  mkRequest (mkObject ∅ ∅) header_function
    (Some (mkObject {[ "hasOwnProperty" := JStr "x"; "id" := JStr "5" ]}
                    small_Object_prototype))
    None None.

End Request.

(** ** lib/application.js and lib/express.js *)

Module Application.

Abbreviation route_id := nat (only parsing).

(** *** Router, Layer and Route

    [./router] is not among the sources at hand; the records and the
    operations on them follow the specification. *)

(** Modelled from the spec: the handler of a Layer of [./router/layer],
    a function or a Route; a mounted application is the function that
    [use] registers for it. *)
Inductive handler : Type :=
| HFunc (f : func)
| HRoute (r : route_id).

(** Modelled from the spec: the Layer of [./router/layer], a path
    pattern, whether the pattern must consume the whole path, and the
    handler. *)
Record Layer : Type := mkLayer {
  layer_path : jsval;
  layer_end : bool;
  layer_handle : handler
}.

(** Modelled from the spec: the Route of [./router/route], one path
    and the handlers in registration order, each under its method. *)
Record Route : Type := mkRoute {
  route_path : string;
  route_stack : list (string * func)
}.

(** Modelled from the spec: the Router of [./router], the stack of
    Layers and the two options it is created with. *)
Record Router : Type := mkRouter {
  stack : list Layer;
  caseSensitive : bool;
  strict : bool
}.

(** *** Applications and the store *)

Inductive listener : Type :=
| Onmount.                              (* application.js:81 *)

Record app : Type := mkApp {
  _router : option Router;
  settings : gmap string jsval;    (* the own properties of [app.settings] *)
  request_proto : option app_id;   (* Object.getPrototypeOf(app.request) *)
  response_proto : option app_id;
  engines_proto : option app_id;
  settings_proto : option app_id;  (* [Some p]: the settings of [p]; [None]:
                                      [Object.prototype] *)
  mountpath : jsval;
  parent : option app_id;
  listeners : list (string * listener);
  settings_cut : option jsval;     (* [Some v]: an assignment to [__proto__]
                                      has made [v] the prototype of the
                                      settings, [null] or an object *)
  mark_readonly : bool             (* the own property of the settings under
                                      [trustProxyDefaultSymbol] is not
                                      writable *)
}.

Record store : Type := mkStore {
  apps : list app;                       (* an application is its index *)
  routes : list Route;                   (* a Route is its index *)
  emitted : list (app_id * string * app_id)   (* emitter, event, argument *)
}.

Definition with_router (r : option Router) (a : app) : app :=
  mkApp r (settings a) (request_proto a) (response_proto a)
        (engines_proto a) (settings_proto a) (mountpath a) (parent a)
        (listeners a) (settings_cut a) (mark_readonly a).

Definition with_settings (s : gmap string jsval) (a : app) : app :=
  mkApp (_router a) s (request_proto a) (response_proto a) (engines_proto a)
        (settings_proto a) (mountpath a) (parent a) (listeners a)
        (settings_cut a) (mark_readonly a).

Definition with_mountpath (p : jsval) (a : app) : app :=
  mkApp (_router a) (settings a) (request_proto a) (response_proto a)
        (engines_proto a) (settings_proto a) p (parent a) (listeners a)
        (settings_cut a) (mark_readonly a).

Definition with_parent (p : option app_id) (a : app) : app :=
  mkApp (_router a) (settings a) (request_proto a) (response_proto a)
        (engines_proto a) (settings_proto a) (mountpath a) p (listeners a)
        (settings_cut a) (mark_readonly a).

Definition with_listeners (l : list (string * listener)) (a : app) : app :=
  mkApp (_router a) (settings a) (request_proto a) (response_proto a)
        (engines_proto a) (settings_proto a) (mountpath a) (parent a) l
        (settings_cut a) (mark_readonly a).

Definition with_cut (c : option jsval) (a : app) : app :=
  mkApp (_router a) (settings a) (request_proto a) (response_proto a)
        (engines_proto a) (settings_proto a) (mountpath a) (parent a)
        (listeners a) c (mark_readonly a).

Definition with_mark_readonly (b : bool) (a : app) : app :=
  mkApp (_router a) (settings a) (request_proto a) (response_proto a)
        (engines_proto a) (settings_proto a) (mountpath a) (parent a)
        (listeners a) (settings_cut a) b.

(** The four objects whose prototype [onmount] replaces. *)
Inductive proto_slot : Type := PRequest | PResponse | PEngines | PSettings.

(** The application whose object is the prototype, when it is the
    object of an application. *)
Definition proto_of (s : proto_slot) (a : app) : option app_id :=
  match s with
  | PRequest => request_proto a
  | PResponse => response_proto a
  | PEngines => engines_proto a
  | PSettings =>
      match settings_cut a with
      | Some _ => None
      | None => settings_proto a
      end
  end.

Definition with_proto (s : proto_slot) (p : option app_id) (a : app) : app :=
  match s with
  | PRequest =>
      mkApp (_router a) (settings a) p (response_proto a) (engines_proto a)
            (settings_proto a) (mountpath a) (parent a) (listeners a)
            (settings_cut a) (mark_readonly a)
  | PResponse =>
      mkApp (_router a) (settings a) (request_proto a) p (engines_proto a)
            (settings_proto a) (mountpath a) (parent a) (listeners a)
            (settings_cut a) (mark_readonly a)
  | PEngines =>
      mkApp (_router a) (settings a) (request_proto a) (response_proto a) p
            (settings_proto a) (mountpath a) (parent a) (listeners a)
            (settings_cut a) (mark_readonly a)
  | PSettings =>
      mkApp (_router a) (settings a) (request_proto a) (response_proto a)
            (engines_proto a) p (mountpath a) (parent a) (listeners a) None
            (mark_readonly a)
  end.

Definition upd_app (a : app_id) (f : app -> app) (st : store) : store :=
  mkStore (alter f a (apps st)) (routes st) (emitted st).

Definition router_of (a : app_id) (st : store) : option Router :=
  apps st !! a ≫= _router.

(** *** A state and exception monad for the registration code *)

Definition M (A : Type) : Type := store -> result A * store.

Definition ret {A} (a : A) : M A := fun st => (Ok a, st).
Definition throw {A} (e : exn) : M A := fun st => (Throw e, st).
Definition bind {A B} (m : M A) (k : A -> M B) : M B :=
  fun st =>
    match m st with
    | (Ok a, st') => k a st'
    | (Throw e, st') => (Throw e, st')
    end.
Definition gets {A} (f : store -> A) : M A := fun st => (Ok (f st), st).
Definition modify (f : store -> store) : M unit := fun st => (Ok tt, f st).

Declare Scope js_scope.
Delimit Scope js_scope with js.
Notation "x <- m ;; k" := (bind m (fun x => k))
  (at level 100, m at next level, right associativity,
   format "'[v' x  <-  m  ;; '/' k ']'") : js_scope.
Notation "m ;; k" := (bind m (fun _ => k))
  (at level 100, right associativity,
   format "'[v' m  ;; '/' k ']'") : js_scope.
Local Open Scope js_scope.

(** [l.forEach(f)] *)
Fixpoint forEach {A} (l : list A) (f : A -> M unit) : M unit :=
  match l with
  | [] => ret tt
  | x :: r => f x ;; forEach r f
  end.

(** *** Settings (application.js:317-428)

    [this.settings] is a plain object.  Its prototype is
    [Object.prototype] at first, the settings object of the parent
    after [onmount], and what an assignment to [__proto__] makes it.
    A lookup walks that chain; the properties of [Object.prototype]
    itself, the accessor [__proto__] among them, are not values of the
    model, and a lookup that comes to them gives [undefined]. *)

Fixpoint settings_lookup (fuel : nat) (st : store) (a : app_id) (k : string)
  {struct fuel} : jsval :=
  match apps st !! a with
  | None => JUndefined
  | Some ap =>
      match settings ap !! k with
      | Some v => v
      | None =>
          match settings_cut ap with
          | Some o => prop_of o k
          | None =>
              match fuel, settings_proto ap with
              | S n, Some p => settings_lookup n st p k
              | _, _ => JUndefined
              end
          end
      end
  end.

(** [app.settings[k]] *)
Definition settings_get (a : app_id) (k : string) (st : store) : jsval :=
  settings_lookup (length (apps st)) st a k.

(** The settings object of the chain that has [k] as a property of its
    own. *)
Fixpoint settings_owner (fuel : nat) (st : store) (a : app_id) (k : string)
  {struct fuel} : option app_id :=
  match apps st !! a with
  | None => None
  | Some ap =>
      match settings ap !! k with
      | Some _ => Some a
      | None =>
          match settings_cut ap with
          | Some _ => None
          | None =>
              match fuel, settings_proto ap with
              | S n, Some p => settings_owner n st p k
              | _, _ => None
              end
          end
      end
  end.

(** What the chain of [a.settings] has under the name [__proto__]: a
    data property, the accessor of [Object.prototype], or nothing when
    the chain ends in [null] before it comes to [Object.prototype]. *)
Inductive proto_key : Type := ProtoData | ProtoAccessor | ProtoAbsent.

Fixpoint proto_key_of (fuel : nat) (st : store) (a : app_id) {struct fuel}
  : proto_key :=
  match apps st !! a with
  | None => ProtoAccessor
  | Some ap =>
      match settings ap !! "__proto__" with
      | Some _ => ProtoData
      | None =>
          match settings_cut ap with
          | Some (JObj props) =>
              match props !! "__proto__" with
              | Some _ => ProtoData
              | None => ProtoAccessor
              end
          | Some JNull => ProtoAbsent
          | Some _ => ProtoAccessor
          | None =>
              match fuel, settings_proto ap with
              | S n, Some p => proto_key_of n st p
              | _, _ => ProtoAccessor
              end
          end
      end
  end.

Definition trustProxyDefaultSymbol : string := "@@symbol:trust_proxy_default".

(** [Object.defineProperty(a.settings, trustProxyDefaultSymbol,
    { configurable: true, value: v })]: a property that is new is not
    writable, one that is there keeps what it is. *)
Definition define_mark (v : jsval) (a : app) : app :=
  with_mark_readonly
    (match settings a !! trustProxyDefaultSymbol with
     | Some _ => mark_readonly a
     | None => true
     end)
    (with_settings (<[trustProxyDefaultSymbol := v]> (settings a)) a).

(** [this.settings[k] = v], in strict mode.  The name [__proto__]
    reaches the accessor of [Object.prototype], which replaces the
    prototype by an object or [null] and ignores every other value,
    unless a data property of that name comes first or the chain does
    not come to [Object.prototype].  The property that
    [Object.defineProperty] has made is not writable, on the object
    and on those that inherit it: the assignment throws.  Every other
    assignment sets the own property. *)
Definition assign_setting (this : app_id) (k : string) (v : jsval) : M unit :=
  fun st =>
    if String.eqb k "__proto__" then
      match proto_key_of (length (apps st)) st this with
      | ProtoAccessor =>
          if is_object v || is_null v
          then (Ok tt, upd_app this (with_cut (Some v)) st)
          else (Ok tt, st)
      | _ =>
          (Ok tt, upd_app this (fun a => with_settings (<[k := v]> (settings a)) a) st)
      end
    else if String.eqb k trustProxyDefaultSymbol then
      match settings_owner (length (apps st)) st this k ≫= (fun b => apps st !! b) with
      | Some owner =>
          if mark_readonly owner then
            (Throw (TypeError
               "Cannot assign to read only property '@@symbol:trust_proxy_default' of object '#<Object>'"),
             st)
          else
            (Ok tt,
             upd_app this
               (fun a => with_mark_readonly false
                           (with_settings (<[k := v]> (settings a)) a)) st)
      | None =>
          (Ok tt,
           upd_app this
             (fun a => with_mark_readonly false
                         (with_settings (<[k := v]> (settings a)) a)) st)
      end
    else
      (Ok tt, upd_app this (fun a => with_settings (<[k := v]> (settings a)) a) st).

(** [delete this.settings[k]] *)
Definition delete_setting (this : app_id) (k : string) : M unit :=
  modify (upd_app this (fun a => with_settings (delete k (settings a)) a)).

(** What [./utils], [./view], [path] and the process provide, and the
    code of the embedder that registration calls: [object_emit fn ev
    arg] is the call [fn.emit(ev, arg)] on a plain object [fn] whose
    [emit] is a function.  It sees the applications and does not
    change them. *)
Record Config : Type := mkConfig {
  compileETag : jsval -> jsval;
  compileQueryParser : jsval -> jsval;
  compileTrust : jsval -> jsval;
  NODE_ENV : jsval;                      (* process.env.NODE_ENV *)
  View : jsval;
  views_dir : jsval;                     (* resolve("views") *)
  object_emit : jsval -> string -> app_id -> store -> result unit
}.

Section Registration.

Variable C : Config.

(** application.js:317, [app.set(setting, val)]; [val = None] is the
    call with one argument.  The nested [this.set("... fn", v)] calls
    reach no case of the switch and are the assignment alone. *)
Definition set (this : app_id) (setting : string) (val : option jsval)
  : M jsval :=
  match val with
  | None => gets (settings_get this setting)
  | Some v =>
      assign_setting this setting v ;;
      (if String.eqb setting "etag" then
         assign_setting this "etag fn" (compileETag C v)
       else if String.eqb setting "query parser" then
         assign_setting this "query parser fn" (compileQueryParser C v)
       else if String.eqb setting "trust proxy" then
         assign_setting this "trust proxy fn" (compileTrust C v) ;;
         modify (upd_app this (define_mark (JBool false)))
       else ret tt) ;;
      ret (JFun (AppFn this))
  end.

(** application.js:384, [app.enabled(setting)] *)
Definition enabled (this : app_id) (setting : string) : M bool :=
  v <- set this setting None ;; ret (truthy v).

(** application.js:415, [app.enable(setting)] *)
Definition enable (this : app_id) (setting : string) : M jsval :=
  set this setting (Some (JBool true)).

(** application.js:434-439, [app.get(setting)] with one argument *)
Definition get (this : app_id) (setting : string) : M jsval :=
  set this setting None.

(** *** Prototype links and the mount event *)

(** Does the prototype chain of [from]'s object reach [target]'s. *)
Fixpoint proto_reaches (s : proto_slot) (fuel : nat) (st : store)
  (from target : app_id) {struct fuel} : bool :=
  if Nat.eqb from target then true
  else
    match fuel with
    | 0 => false
    | S n =>
        match apps st !! from ≫= proto_of s with
        | Some p => proto_reaches s n st p target
        | None => false
        end
    end.

(** [setPrototypeOf(this.slot, parent.slot)]: refused on a cycle. *)
Definition setPrototypeOf (s : proto_slot) (this parent : app_id) : M unit :=
  fun st =>
    if proto_reaches s (length (apps st)) st parent this
    then (Throw (TypeError "Cyclic __proto__ value"), st)
    else (Ok tt, upd_app this (with_proto s (Some parent)) st).

Definition is_true (v : jsval) : bool :=
  match v with JBool true => true | _ => false end.

(** application.js:81-96, the listener of "mount" *)
Definition onmount (this parent : app_id) : M unit :=
  sym <- gets (settings_get this trustProxyDefaultSymbol) ;;
  tpf <- gets (settings_get parent "trust proxy fn") ;;
  (if is_true sym && is_function tpf then
     delete_setting this "trust proxy" ;;
     delete_setting this "trust proxy fn"
   else ret tt) ;;
  setPrototypeOf PRequest this parent ;;
  setPrototypeOf PResponse this parent ;;
  setPrototypeOf PEngines this parent ;;
  setPrototypeOf PSettings this parent.

(** [EventEmitter.prototype.on] *)
Definition on (this : app_id) (event : string) (l : listener) : M unit :=
  modify (upd_app this (fun a => with_listeners (listeners a ++ [(event, l)]) a)).

Definition listeners_for (a : app_id) (event : string) (st : store)
  : list listener :=
  match apps st !! a with
  | None => []
  | Some ap =>
      map snd (filter (fun p => bool_decide (fst p = event)) (listeners ap))
  end.

Definition run_listener (l : listener) (this arg : app_id) : M unit :=
  match l with
  | Onmount => onmount this arg
  end.

(** [EventEmitter.prototype.emit]: the listeners run at once, in the
    order of their registration; the emission is recorded. *)
Definition emit (this : app_id) (event : string) (arg : app_id) : M unit :=
  modify (fun st => mkStore (apps st) (routes st)
                            (emitted st ++ [(this, event, arg)])) ;;
  ls <- gets (listeners_for this event) ;;
  forEach ls (fun l => run_listener l this arg).

(** *** Registration on the Router *)

(** Modelled from the spec: the stack of a Router of [./router] is
    append-only. *)
Definition push_layer (l : Layer) (a : app) : app :=
  match _router a with
  | Some r =>
      with_router (Some (mkRouter (stack r ++ [l]) (caseSensitive r) (strict r))) a
  | None => a
  end.

(** Modelled from the spec: [Router.use(path, fn)] of [./router], which
    appends one Layer with a prefix pattern ([end = false]) and
    rejects a handler that is not a function at once. *)
Definition router_use (this : app_id) (path fn : jsval) : M unit :=
  match fn with
  | JFun f => modify (upd_app this (push_layer (mkLayer path false (HFunc f))))
  | _ => throw (ContractViolation "Router.use() requires a middleware function")
  end.

(** Modelled from the spec: the lookup behind [Router.route] of
    [./router], the Route of a Layer when it is registered for the
    identical path. *)
Definition find_route (rs : list Route) (path : string) (l : Layer)
  : option route_id :=
  match layer_handle l with
  | HRoute r =>
      match rs !! r with
      | Some rt => if String.eqb (route_path rt) path then Some r else None
      | None => None
      end
  | HFunc _ => None
  end.

(** Modelled from the spec: the lookup behind [Router.route] of
    [./router] over the stack, first Layer first. *)
Fixpoint lookup_route (rs : list Route) (path : string) (ls : list Layer)
  : option route_id :=
  match ls with
  | [] => None
  | l :: rest =>
      match find_route rs path l with
      | Some r => Some r
      | None => lookup_route rs path rest
      end
  end.

(** Modelled from the spec: [Router.route(path)] of [./router],
    fetch-or-create of the Route for an exact path pattern: the Route
    registered for the identical path is returned when there is one,
    otherwise a Route is created behind a new Layer ([end = true]). *)
Definition router_route (this : app_id) (path : string) : M route_id :=
  fun st =>
    let ls := default [] (stack <$> router_of this st) in
    match lookup_route (routes st) path ls with
    | Some r => (Ok r, st)
    | None =>
        let r := length (routes st) in
        (Ok r,
         upd_app this (push_layer (mkLayer (JStr path) true (HRoute r)))
           (mkStore (apps st) (routes st ++ [mkRoute path []]) (emitted st)))
    end.

(** Modelled from the spec: the verb methods of a Route of
    [./router/route], which append the handlers to the stack of the
    Route under the method, in order. *)
Definition route_verb (r : route_id) (method : string) (fns : list jsval)
  : M unit :=
  forEach fns (fun fn =>
    match fn with
    | JFun f =>
        modify (fun st =>
          mkStore (apps st)
                  (alter (fun rt => mkRoute (route_path rt)
                                      (route_stack rt ++ [(method, f)]))
                         r (routes st))
                  (emitted st))
    | _ => throw (ContractViolation "Route requires a callback function")
    end).

(** *** application.js:133, [app.lazyrouter] *)
Definition lazyrouter (this : app_id) : M unit :=
  r <- gets (router_of this) ;;
  match r with
  | Some _ => ret tt
  | None =>
      cs <- enabled this "case sensitive routing" ;;
      sr <- enabled this "strict routing" ;;
      modify (upd_app this (with_router (Some (mkRouter [] cs sr)))) ;;
      qp <- get this "query parser fn" ;;
      router_use this (JStr "/") (JFun (QueryMw qp)) ;;
      router_use this (JStr "/") (JFun (InitMw this))
  end.

(** *** application.js:185, [app.use] *)

(** [while (Array.isArray(arg) && arg.length !== 0) arg = arg[0]] *)
Fixpoint first_leaf (v : jsval) : jsval :=
  match v with
  | JArr (x :: _) => first_leaf x
  | _ => v
  end.

(** [flatten] of the package array-flatten, on one value *)
Fixpoint flatten_value (v : jsval) : list jsval :=
  match v with
  | JArr l =>
      (fix go (l : list jsval) : list jsval :=
         match l with
         | [] => []
         | x :: r => flatten_value x ++ go r
         end) l
  | _ => [v]
  end.

Definition flatten (l : list jsval) : list jsval := flatten_value (JArr l).

(** [fn && fn.handle && fn.set] (application.js:218) holds of every
    application, which has [handle] and [set] from the prototype of the
    applications, and of the plain objects and the functions that have
    a truthy value under both names.  An application is a place in the
    store; the others are values. *)
Definition as_app (fn : jsval) : option app_id :=
  match fn with
  | JFun (AppFn c) => Some c
  | _ => None
  end.

Definition duck_app (fn : jsval) : bool :=
  truthy (prop_of fn "handle") && truthy (prop_of fn "set").

(** The offset and the path that [use] reads off its arguments. *)
Definition use_offset_path (args : list jsval) : nat * jsval :=
  let fn := nth 0 args JUndefined in
  if negb (is_function fn) then
    if negb (is_function (first_leaf fn)) then (1, fn) else (0, JStr "/")
  else (0, JStr "/").

(** The callback of [fns.forEach] (application.js:216-237).  On a
    value that is no application the two assignments [fn.mountpath =
    path] and [fn.parent = this] write properties that nothing reads
    afterwards; [fn.emit] is the property of the value, and a value
    that is no function cannot be called. *)
Definition use_each (this : app_id) (path : jsval) (fn : jsval) : M unit :=
  match as_app fn with
  | Some c =>
      modify (upd_app c (with_mountpath path)) ;;
      modify (upd_app c (with_parent (Some this))) ;;
      router_use this path (JFun (MountedApp c)) ;;
      emit c "mount" this
  | None =>
      if duck_app fn then
        router_use this path (JFun (MountedObj fn)) ;;
        (if is_function (prop_of fn "emit")
         then fun st => (object_emit C fn "mount" this st, st)
         else throw (TypeError "fn.emit is not a function"))
      else router_use this path fn
  end.

Definition use (this : app_id) (args : list jsval) : M app_id :=
  let '(offset, path) := use_offset_path args in
  let fns := flatten (drop offset args) in
  if Nat.eqb (length fns) 0 then
    throw (TypeError "app.use() requires a middleware function")
  else
    lazyrouter this ;;
    forEach fns (use_each this path) ;;
    ret this.

(** *** part_002:249, [app.route] *)
Definition route (this : app_id) (path : string) : M route_id :=
  lazyrouter this ;;
  router_route this path.

(** *** application.js:49-122, [app.init] and [app.defaultConfiguration] *)

Definition is_production (v : jsval) : bool :=
  match v with JStr s => String.eqb s "production" | _ => false end.

Definition defaultConfiguration (this : app_id) : M unit :=
  let env := js_or (NODE_ENV C) (JStr "development") in
  enable this "x-powered-by" ;;
  set this "etag" (Some (JStr "weak")) ;;
  set this "env" (Some (JStr "env")) ;;
  set this "query parser" (Some (JStr "extended")) ;;
  set this "subdomain offset" (Some (JNum 2)) ;;
  set this "trust proxy" (Some (JBool false)) ;;
  modify (upd_app this (define_mark (JBool true))) ;;
  on this "mount" Onmount ;;
  modify (upd_app this (with_mountpath (JStr "/"))) ;;
  set this "view" (Some (View C)) ;;
  set this "views" (Some (views_dir C)) ;;
  set this "jsonp callback name" (Some (JStr "callback")) ;;
  (if is_production env then enable this "view cache" ;; ret tt else ret tt).

(** [this.engines = {}; this.settings = {}]: two new objects. *)
Definition init (this : app_id) : M unit :=
  modify (upd_app this (with_proto PEngines None)) ;;
  modify (upd_app this (fun a => with_proto PSettings None (with_settings ∅ a))) ;;
  defaultConfiguration this.

(** *** express.js:29, [createApplication] *)

Definition blank_app : app :=
  mkApp None ∅ None None None None JUndefined None [] None false.

Definition createApplication : M jsval :=
  a <- gets (fun st => length (apps st)) ;;
  modify (fun st => mkStore (apps st ++ [blank_app]) (routes st) (emitted st)) ;;
  init a ;;
  ret (JFun (AppFn a)).

End Registration.

(** *** Dispatch

    One request is a [world]: what the handlers can see and change of
    the request and the response, and the record of the calls made.
    [next] and [done] are continuations; a handler either calls its
    continuation or ends the exchange. *)

Inductive event : Type :=
| EvCall (f : func)                     (* a Router or Route invoked [f] *)
| EvDone (err : option jsval).          (* the embedder's callback ran *)

Record world : Type := mkWorld {
  url : string;                          (* the path the current Router sees *)
  method : string;                       (* lower case *)
  req_proto : option app_id;             (* [a]: the prototype is [a.request] *)
  res_proto : option app_id;
  params : list (string * string);
  log : list event
}.

Inductive outcome : Type :=
| Returned (w : world)
| Uncaught (e : exn) (w : world)
| OutOfFuel.

Definition cont : Type := option jsval -> world -> outcome.

Inductive action : Type :=
| ANext (err : option jsval)            (* next() or next(err) *)
| AEnd                                  (* the response is finished *)
| AThrow (v : jsval).

(** The functions that are not in [application.js], as they behave
    while the applications are as they are: the matcher of
    [./router/layer] and the bodies of the middleware and of the
    handlers.  [object_handle fn] is the call [fn.handle(req, res,
    callback)] on a plain object [fn] whose [handle] is a function;
    [ANext err] says that it called the callback. *)
Record Runtime : Type := mkRuntime {
  layer_match : jsval -> bool -> bool -> bool -> string ->
                option (string * list (string * string));
  user_fn : nat -> option jsval -> world -> world * action;
  extern_fn : string -> option jsval -> world -> world * action;
  query_mw : jsval -> world -> world * action;
  init_mw : app_id -> world -> world * action;
  object_handle : jsval -> world -> world * action
}.

(** The code of the embedder.  A body reads the applications, their
    settings and their prototypes, through [req.app], so what it does
    depends on the store: the embedder is a [Runtime] for every store. *)
Definition Embedder : Type := store -> Runtime.

Definition with_url (u : string) (w : world) : world :=
  mkWorld u (method w) (req_proto w) (res_proto w) (params w) (log w).

Definition with_protos (rq rs : option app_id) (w : world) : world :=
  mkWorld (url w) (method w) rq rs (params w) (log w).

Definition log_event (e : event) (w : world) : world :=
  mkWorld (url w) (method w) (req_proto w) (res_proto w) (params w)
          (log w ++ [e]).

(** Modelled from the spec: what the loop of [./router] does on a
    match; the handler sees the remainder path and the parameters
    bound by the pattern, later bindings first. *)
Definition enter_layer (remainder : string) (ps : list (string * string))
  (w : world) : world :=
  mkWorld remainder (method w) (req_proto w) (res_proto w) (ps ++ params w)
          (log w).

(** Modelled from the spec: what the loop of [./router] does when
    control comes back; the path context of the Router is restored. *)
Definition leave_layer (before w : world) : world := with_url (url before) w.

(** [req.app]: the own property [app] of the request prototype. *)
Definition req_app (w : world) : option app_id := req_proto w.

(** [setPrototypeOf(req, orig.request); setPrototypeOf(res, orig.response)] *)
Definition restore_protos (orig : app_id) (w : world) : world :=
  with_protos (Some orig) (Some orig) w.

(** Modelled from the spec: the shape test of [./router/layer]; an
    error-handling function declares four parameters. *)
Definition is_error_handler (f : func) : bool :=
  match f with
  | UserFn _ arity | PropFn _ arity _ => Nat.eqb arity 4
  | _ => false
  end.

(** Modelled from the spec: the candidates of the loop of [./router];
    with an error pending the error handlers alone, without one the
    ordinary handlers alone. *)
Definition eligible (f : func) (err : option jsval) : bool :=
  match err with
  | Some _ => is_error_handler f
  | None => negb (is_error_handler f)
  end.

(** Modelled from the spec: the method test of [./router/route]; HEAD
    falls back on GET where the Route has no HEAD handler. *)
Definition method_applies (entries : list (string * func)) (m req_method : string)
  : bool :=
  String.eqb m "_all" || String.eqb m req_method
  || (String.eqb req_method "head" && String.eqb m "get"
      && negb (existsb (fun e => String.eqb (fst e) "head") entries)).

Section Dispatch.

Variable R : Runtime.
Variable st : store.                      (* not written during dispatch *)

(** [app.handle] of the applications one level down. *)
Variable handle_rec : app_id -> world -> option cont -> outcome.

(** A throw is the call [next(thrown)]. *)
Definition run (p : world * action) (next : cont) : outcome :=
  match p with
  | (w, ANext e) => next e w
  | (w, AEnd) => Returned w
  | (w, AThrow v) => next (Some v) w
  end.

(** application.js:227-234, the function registered for a mounted
    application [fn] *)
Definition mounted_app (fn : app_id) (w : world) (next : cont) : outcome :=
  let orig := req_app w in
  handle_rec fn w (Some (fun err w' =>
    match orig with
    | Some o => next err (restore_protos o w')
    | None =>
        Uncaught (TypeError "Cannot read properties of undefined (reading 'request')") w'
    end)).

(** application.js:227-234, the function registered for a value [fn]
    that [use] has taken for an application and that is none.  A [handle]
    that is no function cannot be called; that throw, and a throw of
    [handle] itself, leave the function, and the Layer passes them on. *)
Definition mounted_obj (fn : jsval) (w : world) (next : cont) : outcome :=
  let orig := req_app w in
  if is_function (prop_of fn "handle") then
    match object_handle R fn w with
    | (w', ANext err) =>
        match orig with
        | Some o => next err (restore_protos o w')
        | None =>
            Uncaught (TypeError "Cannot read properties of undefined (reading 'request')") w'
        end
    | (w', AEnd) => Returned w'
    | (w', AThrow v) => next (Some v) w'
    end
  else next (Some (type_error_value "fn.handle is not a function")) w.

(** express.js:30-32, the application as a function *)
Definition app_fn (a : app_id) (w : world) (next : option cont) : outcome :=
  handle_rec a w next.

Definition call_fn (f : func) (err : option jsval) (w : world) (next : cont)
  : outcome :=
  match f with
  | UserFn id _ | PropFn id _ _ => run (user_fn R id err w) next
  | ExternFn name => run (extern_fn R name err w) next
  | QueryMw p => run (query_mw R p w) next
  | InitMw a => run (init_mw R a w) next
  | MountedApp c => mounted_app c w next
  | MountedObj fn => mounted_obj fn w next
  | AppFn a => app_fn a w (Some next)
  end.

(** Modelled from the spec: [Route.dispatch] of [./router/route]. The
    handlers run in registration order, those of other methods are
    skipped, and the end of the stack calls the outer [next]. *)
Fixpoint route_next (all entries : list (string * func)) (err : option jsval)
  (w : world) (next : cont) {struct entries} : outcome :=
  match entries with
  | [] => next err w
  | (m, f) :: rest =>
      if method_applies all m (method w) && eligible f err then
        call_fn f err (log_event (EvCall f) w)
                (fun e w' => route_next all rest e w' next)
      else route_next all rest err w next
  end.

(** Modelled from the spec: the dispatch loop of [Router.handle] of
    [./router], from the current Layer on.  Parameter hooks and method
    filters of Layers, which nothing in [application.js] registers,
    are left out. *)
Fixpoint router_next (cs sr : bool) (ls : list Layer) (err : option jsval)
  (w : world) (done : cont) {struct ls} : outcome :=
  match ls with
  | [] => done err w
  | l :: rest =>
      match layer_match R (layer_path l) cs sr (layer_end l) (url w) with
      | None => router_next cs sr rest err w done
      | Some (remainder, ps) =>
          let resume : cont :=
            fun e w' => router_next cs sr rest e (leave_layer w w') done in
          match layer_handle l with
          | HFunc f =>
              if eligible f err then
                call_fn f err (log_event (EvCall f) (enter_layer remainder ps w))
                        resume
              else router_next cs sr rest err w done
          | HRoute r =>
              match err, routes st !! r with
              | None, Some rt =>
                  route_next (route_stack rt) (route_stack rt) None
                             (enter_layer remainder ps w) resume
              | _, _ => router_next cs sr rest err w done
              end
          end
      end
  end.

(** Modelled from the spec: [Router.handle] of [./router], the loop
    from the first Layer on with no error pending. *)
Definition router_handle (r : Router) (w : world) (done : cont) : outcome :=
  router_next (caseSensitive r) (strict r) (stack r) None w done.

(** application.js:154-173, [app.handle], one level.  Without a
    callback the default handler is built from [logerror], which
    [application.js] does not define. *)
Definition handle_body (this : app_id) (w : world) (callback : option cont)
  : outcome :=
  let router := router_of this st in
  match callback with
  | None => Uncaught (ReferenceError "logerror is not defined") w
  | Some done =>
      match router with
      | None => done None w
      | Some r => router_handle r w done
      end
  end.

End Dispatch.

(** [app.handle]; the fuel bounds the depth of mounted applications. *)
Fixpoint handle (R : Runtime) (st : store) (fuel : nat) (this : app_id)
  (w : world) (callback : option cont) {struct fuel} : outcome :=
  match fuel with
  | 0 => OutOfFuel
  | S n => handle_body R st (handle R st n) this w callback
  end.

(** The call [app(req, res, next)] of an application value. *)
Definition call_app (R : Runtime) (st : store) (fuel : nat) (a : app_id)
  (w : world) (next : option cont) : outcome :=
  app_fn (handle R st fuel) a w next.

(** A callback that records its call. *)
Definition recording_done : cont :=
  fun err w => Returned (log_event (EvDone err) w).

Definition layers_of (a : app_id) (st : store) : list Layer :=
  default [] (stack <$> router_of a st).

(** The value has a truthy property [handle] and a truthy property
    [set]. *)
Definition has_handle_and_set (v : jsval) : bool :=
  truthy (prop_of v "handle") && truthy (prop_of v "set").

(** The Layer that [use] registers for a handler function: an
    application, and a function that has [handle] and [set], is
    wrapped in the function that mounts it. *)
Definition use_handler (f : func) : func :=
  match f with
  | AppFn c => MountedApp c
  | _ => if has_handle_and_set (JFun f) then MountedObj (JFun f) else f
  end.

(** A handler that is no application and has not both [handle] and
    [set]: it is registered as it is. *)
Definition plain_handler (f : func) : bool :=
  match f with
  | AppFn _ => false
  | _ => negb (has_handle_and_set (JFun f))
  end.

Definition use_layer (path : jsval) (f : func) : Layer :=
  mkLayer path false (HFunc (use_handler f)).

(** The function that [use] registers for a handler value: the
    function itself, the wrapper of an application or of a value taken
    for one; no other value is registered. *)
Definition registered (v : jsval) : option func :=
  match v with
  | JFun f => Some (use_handler f)
  | _ => if has_handle_and_set v then Some (MountedObj v) else None
  end.

Definition handler_layer (path : jsval) (f : func) : Layer :=
  mkLayer path false (HFunc f).

(** No function among the arguments, at any depth. *)
Definition no_function (args : list jsval) : bool :=
  forallb (fun v => negb (is_function v)) (flatten args).

(** *** The arguments of [use] in the words of the specification

    [use([path,] handler | handler[])]: a handler argument is a handler
    or an array of handler arguments. *)
Inductive handler_arg : Type :=
| Handler (f : func)
| HandlerArray (l : list handler_arg).

Fixpoint arg_value (h : handler_arg) : jsval :=
  match h with
  | Handler f => JFun f
  | HandlerArray l => JArr (map arg_value l)
  end.

(** The handlers of an argument, from left to right. *)
Fixpoint in_order (h : handler_arg) : list func :=
  match h with
  | Handler f => [f]
  | HandlerArray l => flat_map in_order l
  end.

(** The arguments of the call [use(path, handlers...)] or
    [use(handlers...)]. *)
Definition use_args (path : option jsval) (hs : list handler_arg) : list jsval :=
  match path with
  | Some p => p :: map arg_value hs
  | None => map arg_value hs
  end.

(** A value starts with a handler when it is a function, or an array
    whose first element starts with a handler. *)
Inductive function_led : jsval -> Prop :=
| led_function f : function_led (JFun f)
| led_array x l : function_led x -> function_led (JArr (x :: l)).

(** *** Vocabulary of the properties *)

(** The store a computation leaves. *)
Definition exec {A} (m : M A) (st : store) : store := snd (m st).

(** How a computation in continuation-passing style leaves: it calls
    its continuation, once, with some error and world, or it never
    calls it and has an outcome of its own. *)
Definition exits (F : cont -> outcome) : Prop :=
  (exists e w, forall k, F k = k e w) \/ (exists o, forall k, F k = o).

(** What the loop of the Routers reads of the store: the Routers and
    the Routes. *)
Definition same_routing (st st' : store) : Prop :=
  length (apps st) = length (apps st')
  /\ (forall a, router_of a st = router_of a st')
  /\ routes st = routes st'.

(** The dispatch of an embedder in a store. *)
Definition dispatch (E : Embedder) (st : store) (fuel : nat) (this : app_id)
  (w : world) (callback : option cont) : outcome :=
  handle (E st) st fuel this w callback.

(** A computation keeps a relation when the relation holds between the
    store before and the store after, whether it ends or throws. *)
Definition keeps (P : store -> store -> Prop) {A} (m : M A) : Prop :=
  forall st, P st (exec m st).

(** The record of emissions is written by [emit] alone. *)
Definition same_emitted (st st' : store) : Prop := emitted st = emitted st'.

(** The store in which the application [c] has no listener. *)
Definition unheard_by (c : app_id) (st : store) : store :=
  upd_app c (with_listeners []) st.

(** The store in which [use] calls [fn.emit] of a plain object it has
    taken for an application: the router is there and has the Layer of
    the object. *)
Definition object_mounted (C : Config) (this : app_id) (path fn : jsval)
  (st : store) : store :=
  upd_app this (push_layer (handler_layer path (MountedObj fn)))
    (exec (lazyrouter C this) st).

(** The Route with one more handler under a method. *)
Definition add_handler (method : string) (f : func) (rt : Route) : Route :=
  mkRoute (route_path rt) (route_stack rt ++ [(method, f)]).

(** *** A concrete environment to run the code in *)

(** A matcher for literal patterns: the pattern matches the path or a
    prefix of it that ends at a segment boundary, without regard to
    case unless [cs] is set. *)
Definition literal_match (pattern : jsval) (cs sr e : bool) (path : string)
  : option (string * list (string * string)) :=
  match pattern with
  | JStr p =>
      let norm := fun s => if cs then s else toLowerCase s in
      if String.eqb p "/" then
        if e then
          if String.eqb path "/" || String.eqb path "" then Some ("", [])
          else None
        else Some (path, [])
      else if String.prefix (norm p) (norm path) then
        let rem := String.substring (String.length p)
                     (String.length path - String.length p) path in
        if String.eqb rem "" then Some ("", [])
        else if String.prefix "/" rem then
          if e then
            if String.eqb rem "/" && negb sr then Some ("", []) else None
          else Some (rem, [])
        else None
      else None
  | _ => None
  end.

Definition example_config : Config :=
  mkConfig (fun _ => JFun (ExternFn "etag"))
           (fun _ => JFun (ExternFn "qs"))
           (fun _ => JFun (ExternFn "trust"))
           JUndefined
           (JFun (ExternFn "View"))
           (JStr "/srv/views")
           (fun _ _ _ _ => Ok tt).

(** The handler [UserFn 0 _] answers the request, every other function
    of the embedder passes it on; [init] installs the prototypes of
    its application. *)
Definition example_runtime : Runtime :=
  mkRuntime literal_match
            (fun id _ w => match id with 0 => (w, AEnd) | _ => (w, ANext None) end)
            (fun _ _ w => (w, ANext None))
            (fun _ w => (w, ANext None))
            (fun a w => (with_protos (Some a) (Some a) w, ANext None))
            (fun _ w => (w, ANext None)).

Definition empty_store : store := mkStore [] [] [].


(** One application, as [createApplication] leaves it. *)
Definition one_app : store := exec (createApplication example_config) empty_store.

(** Two applications; the first has case sensitive routing enabled. *)
Definition two_apps : store :=
  exec (createApplication example_config ;;
        createApplication example_config ;;
        enable example_config 0 "case sensitive routing") empty_store.

(** Application 1 is mounted under "/c" in application 0 and later
    receives a handler under "/Foo". *)
Definition mount_then_register (st : store) : store :=
  exec (use example_config 0 [JStr "/c"; JFun (AppFn 1)] ;;
        use example_config 1 [JStr "/Foo"; JFun (UserFn 0 3)]) st.

Definition heard : store := mount_then_register two_apps.

Definition unheard : store :=
  mount_then_register (upd_app 1 (with_listeners []) two_apps).

Definition get_request (path : string) : world :=
  mkWorld path "get" None None [] [].

(** Arguments of [use]: nested arrays of handlers and no path. *)
Definition use_example_args : list jsval :=
  [JArr [JFun (UserFn 1 3); JArr [JFun (UserFn 2 3)]]; JFun (UserFn 3 3)].

(** The same in the words of the specification. *)
Definition example_handlers : list handler_arg :=
  [HandlerArray [Handler (UserFn 1 3); HandlerArray [Handler (UserFn 2 3)]];
   Handler (UserFn 3 3)].

(** Handlers behind an empty array. *)
Definition empty_led_handlers : list handler_arg :=
  [HandlerArray [HandlerArray []; Handler (UserFn 1 3)]].

(** A plain object that has [handle] and [set] and no [emit], and one
    that has the three, [emit] a function. *)
Definition duck_object : jsval :=
  JObj {[ "handle" := JNum 1; "set" := JNum 1 ]}.

Definition emitter_object : jsval :=
  JObj {[ "handle" := JNum 1; "set" := JNum 1;
          "emit" := JFun (ExternFn "emit") ]}.

(** The world in which application 1, mounted in [heard], calls back
    on the request for "/c/foo": its [init] has installed its own
    prototypes. *)
Definition after_child : world :=
  mkWorld "/foo" "get" (Some 1) (Some 1) []
    [EvCall (MountedApp 1); EvCall (QueryMw (JFun (ExternFn "qs")));
     EvCall (InitMw 1)].

(** The Layer of the mount of application 1 under "/c", and a request
    for "/c/foo" as it enters that Layer in application 0. *)
Definition mount_layer : Layer :=
  mkLayer (JStr "/c") false (HFunc (MountedApp 1)).

Definition mount_entry : world :=
  mkWorld "/c/foo" "get" (Some 0) (Some 0) [] [].

Definition inside_mount : world :=
  log_event (EvCall (MountedApp 1)) (enter_layer "/foo" [] mount_entry).

End Application.

(** ** lib/application.js, the rest of the settings and the mount path *)

Module ApplicationRest.

Import Application.
Local Open Scope js_scope.

Section Settings.

Variable C : Config.

(** part_002:403, [app.disabled(setting)] *)
Definition disabled (this : app_id) (setting : string) : M bool :=
  v <- set C this setting None ;; ret (negb (truthy v)).

(** part_002:426, [app.disable(setting)] *)
Definition disable (this : app_id) (setting : string) : M jsval :=
  set C this setting (Some (JBool false)).

End Settings.

(** [new Error(msg)] *)
Inductive js_error : Type :=
| Error (msg : string).

(** [ext[0] !== "." ? "." + ext : ext] *)
Definition extension (ext : string) : string :=
  match ext with
  | String "."%char _ => ext
  | _ => String "."%char ext
  end.

(** part_002:260, [app.engine(ext, fn)], on the object [this.engines] *)
Definition engine (engines : gmap string jsval) (ext : string) (fn : jsval)
  : js_error + gmap string jsval :=
  if negb (is_function fn) then inl (Error "callback function required")
  else inr (<[extension ext := fn]> engines).

Section Path.

(** The conversion that [+] applies to [this.mountpath]. *)
Variable ToString : jsval -> string.

(** part_002:366, [app.path()]; the fuel bounds the chain of parents. *)
Fixpoint path (fuel : nat) (st : store) (this : app_id) {struct fuel}
  : option string :=
  match fuel with
  | 0 => None
  | S n =>
      match apps st !! this ≫= parent with
      | Some p =>
          match path n st p with
          | Some s =>
              Some (String.append s
                      (ToString (default JUndefined (mountpath <$> apps st !! this))))
          | None => None
          end
      | None => Some ""
      end
  end.

End Path.

(** The object [this.settings] after [set(setting, val)]. *)
Definition settings_after_set (C : Config) (setting : string) (v : jsval)
  (m : gmap string jsval) : gmap string jsval :=
  if String.eqb setting "etag" then
    <["etag fn" := compileETag C v]> (<[setting := v]> m)
  else if String.eqb setting "query parser" then
    <["query parser fn" := compileQueryParser C v]> (<[setting := v]> m)
  else if String.eqb setting "trust proxy" then
    <[trustProxyDefaultSymbol := JBool false]>
      (<["trust proxy fn" := compileTrust C v]> (<[setting := v]> m))
  else <[setting := v]> m.

(** The application after [set(setting, val)], for a setting that is
    assigned like any other. *)
Definition after_set (C : Config) (setting : string) (v : jsval) (x : app) : app :=
  if String.eqb setting "trust proxy" then
    with_mark_readonly
      (match settings x !! trustProxyDefaultSymbol with
       | Some _ => mark_readonly x
       | None => true
       end)
      (with_settings (settings_after_set C setting v (settings x)) x)
  else with_settings (settings_after_set C setting v (settings x)) x.

(** The own property [k] of [a.settings]. *)
Definition own_setting (a : app_id) (k : string) (st : store) : option jsval :=
  apps st !! a ≫= (fun x => settings x !! k).

(** Two stores agree on what [o] reads of every application. *)
Definition same_obs {X} (o : app -> X) (st st' : store) : Prop :=
  forall a, o <$> apps st !! a = o <$> apps st' !! a.

(** The settings of a mounted application after [onmount]: the two
    settings of "trust proxy" are deleted when [b] holds. *)
Definition mount_deletes (b : bool) (m : gmap string jsval) : gmap string jsval :=
  if b then delete "trust proxy fn" (delete "trust proxy" m) else m.

(** The store in which [use(p, app)] emits "mount" on [c]. *)
Definition before_mount (C : Config) (this c : app_id) (p : jsval) (st : store)
  : store :=
  let s :=
    upd_app this (push_layer (mkLayer p false (HFunc (MountedApp c))))
      (upd_app c (with_parent (Some this))
         (upd_app c (with_mountpath p) (exec (lazyrouter C this) st))) in
  mkStore (apps s) (routes s) (emitted s ++ [(c, "mount", this)]).

(** Two applications, the second with a "trust proxy" of its own. *)
Definition two_apps_explicit : store :=
  exec (set example_config 1 "trust proxy" (Some (JBool true))) two_apps.

(** The parents of an application, the nearest first, as far as the
    fuel goes. *)
Fixpoint ancestors (fuel : nat) (st : store) (a : app_id) {struct fuel}
  : list app_id :=
  match fuel with
  | 0 => []
  | S n =>
      match apps st !! a ≫= parent with
      | Some p => p :: ancestors n st p
      | None => []
      end
  end.

(** Three applications, the second mounted under "/blog" in the first. *)
Definition blog_mounted : store :=
  exec (createApplication example_config ;;
        createApplication example_config ;;
        createApplication example_config ;;
        use example_config 0 [JStr "/blog"; JFun (AppFn 1)]) empty_store.

(** A conversion to strings that is right on strings. *)
Definition example_ToString (v : jsval) : string :=
  match v with JStr s => s | _ => "" end.

(** The application that [createApplication] makes, computed on the
    empty store. *)
Definition new_app (C : Config) : app :=
  default blank_app (apps (exec (createApplication C) empty_store) !! 0).

End ApplicationRest.

(** ** lib/request.js, the getters *)

Module RequestRest.

Import Request.

(** [s.indexOf(c)] for a character [c] *)
Fixpoint index_of (c : ascii) (s : string) : option nat :=
  match s with
  | EmptyString => None
  | String a r => if Ascii.eqb a c then Some 0 else S <$> index_of c r
  end.

(** [s.substring(0, n)] *)
Fixpoint take_str (n : nat) (s : string) : string :=
  match n, s with
  | S m, String a r => String a (take_str m r)
  | _, _ => EmptyString
  end.

Fixpoint drop_str (n : nat) (s : string) : string :=
  match n, s with
  | S m, String _ r => drop_str m r
  | _, _ => s
  end.

(** [s.indexOf(c, from)] *)
Definition index_from (c : ascii) (from : nat) (s : string) : option nat :=
  (fun i => from + i) <$> index_of c (drop_str from s).

(** [s.split(c)] for a character [c] *)
Fixpoint split (c : ascii) (s : string) : list string :=
  match s with
  | EmptyString => [EmptyString]
  | String a r =>
      if Ascii.eqb a c then EmptyString :: split c r
      else
        match split c r with
        | x :: xs => String a x :: xs
        | [] => [String a EmptyString]
        end
  end.

(** [l.join(c)] *)
Fixpoint join (c : ascii) (l : list string) : string :=
  match l with
  | [] => EmptyString
  | [x] => x
  | x :: r => String.append x (String c (join c r))
  end.

(** [v === s] for a string [s] *)
Definition is_str (s : string) (v : jsval) : bool :=
  match v with JStr t => String.eqb t s | _ => false end.

(** [l.indexOf(s)] on an array, for a string [s] *)
Fixpoint array_index_of (s : string) (l : list jsval) : option nat :=
  match l with
  | [] => None
  | v :: r => if is_str s v then Some 0 else S <$> array_index_of s r
  end.

(** [l.slice(z)] *)
Definition slice_from {A} (z : Z) (l : list A) : list A :=
  drop (Z.to_nat (if (z <? 0)%Z then Z.max (Z.of_nat (length l) + z) 0 else z)) l.

Section Getters.

(** [String.prototype.trim] and [isIP] of the package net. *)
Variable trim : string -> string.
Variable isIP : string -> bool.

(** request.js:223-235, the getter [protocol]; [encrypted] is
    [this.connection.encrypted] and [trusted] what the trust function
    of the application says of the remote address. *)
Definition protocol (this : request) (encrypted trusted : bool) : result jsval :=
  let proto := if encrypted then "https" else "http" in
  if negb trusted then Ok (JStr proto)
  else
    match header this (JStr "X-Forwared-Proto") with
    | Throw e => Throw e
    | Ok v =>
        match js_or v (JStr proto) with
        | JStr h =>
            match index_of ","%char h with
            | Some index => Ok (JStr (trim (take_str index h)))
            | None => Ok (JStr (trim h))
            end
        | _ => Throw (TypeError "header.trim is not a function")
        end
    end.

(** request.js:246-248, the getter [secure] *)
Definition secure (this : request) (encrypted trusted : bool) : result bool :=
  match protocol this encrypted trusted with
  | Ok v => Ok (is_str "https" v)
  | Throw e => Throw e
  end.

(** request.js:315-331, the getter [hostname] *)
Definition hostname (this : request) (trusted : bool) : result jsval :=
  match header this (JStr "X-Forwarded-Host") with
  | Throw e => Throw e
  | Ok forwarded =>
      match (if negb (truthy forwarded) || negb trusted
             then header this (JStr "Host") else Ok forwarded) with
      | Throw e => Throw e
      | Ok host =>
          if negb (truthy host) then Ok JUndefined
          else
            match host with
            | JStr h =>
                let offset :=
                  match h with
                  | String "["%char _ =>
                      match index_of "]"%char h with
                      | Some i => i + 1
                      | None => 0
                      end
                  | _ => 0
                  end in
                match index_from ":"%char offset h with
                | Some index => Ok (JStr (take_str index h))
                | None => Ok host
                end
            | JArr l =>
                let offset :=
                  if is_str "[" (nth 0 l JUndefined) then
                    match array_index_of "]" l with
                    | Some i => i + 1
                    | None => 0
                    end
                  else 0 in
                match array_index_of ":" (drop offset l) with
                | Some _ => Throw (TypeError "host.substring is not a function")
                | None => Ok host
                end
            | _ => Throw (TypeError "host.indexOf is not a function")
            end
      end
  end.

(** request.js:287-296, the getter [subdomains]; [offset] is the
    setting "subdomain offset", a number. *)
Definition subdomains (this : request) (trusted : bool) (offset : Z)
  : result (list jsval) :=
  match hostname this trusted with
  | Throw e => Throw e
  | Ok host =>
      if negb (truthy host) then Ok []
      else
        match host with
        | JStr h =>
            Ok (slice_from offset
                  (if negb (isIP h) then rev (map JStr (split "."%char h))
                   else [JStr h]))
        | _ => Throw (TypeError "hostname.split is not a function")
        end
  end.

(** request.js:272-278, the getter [ips], on the addresses that
    [proxyaddr.all] returns: [addrs.reverse().pop(); return addrs] *)
Definition ips (addrs : list jsval) : list jsval := removelast (rev addrs).

(** request.js:384-387, the getter [xhr] *)
Definition xhr (this : request) : result bool :=
  match header this (JStr "X-Requested-With") with
  | Throw e => Throw e
  | Ok v =>
      match js_or v (JStr "") with
      | JStr val => Ok (String.eqb (toLowerCase val) "xmlhttprequest")
      | _ => Throw (TypeError "val.toLowerCase is not a function")
      end
  end.

End Getters.

(** The header that [hostname] works on is the string [h]:
    X-Forwarded-Host when the socket is trusted and the header has a
    value, Host otherwise. *)
Definition reads_host (this : request) (trusted : bool) (h : string) : Prop :=
  if trusted && truthy (get_prop (req_headers this) "x-forwarded-host")
  then get_prop (req_headers this) "x-forwarded-host" = JStr h
  else get_prop (req_headers this) "host" = JStr h.

(** The bracketed literal [ [a] ]. *)
Definition bracketed (a : string) : string :=
  String "["%char (String.append a "]").

(** The request with one more header. *)
Definition with_header (k : string) (v : jsval) (this : request) : request :=
  mkRequest (mkObject (<[k := v]> (own (req_headers this)))
                      (inherited (req_headers this)))
            (req_header this) (req_params this) (req_body this) (req_query this).

(** Requests to run the getters on. *)
Definition request_with_headers (l : list (string * jsval)) : request :=
  mkRequest (mkObject (list_to_map l) ∅) header_function None None None.

Definition proxied_request : request :=
  request_with_headers
    [("host", JStr "example.com:3000");
     ("x-forwared-proto", JStr "https , http");
     ("x-forwarded-host", JStr "evil.example")].

Definition forwarded_request : request :=
  request_with_headers
    [("host", JStr "internal:3000");
     ("x-forwarded-host", JStr "proxy.example:8080")].

Definition ipv6_request : request :=
  request_with_headers [("host", JStr "[::1]:3000")].

Definition subdomain_request : request :=
  request_with_headers [("host", JStr "tobi.ferrets.example.com")].

Definition ip_request : request :=
  request_with_headers [("host", JStr "10.0.0.1")].

(** A stand-in for [isIP]. *)
Definition dotted_quad (s : string) : bool := String.eqb s "10.0.0.1".

(** [trim] on the blanks of ASCII, to run the getters with. *)
Definition is_blank (c : ascii) : bool :=
  let n := nat_of_ascii c in
  Nat.eqb n 32 || ((9 <=? n)%nat && (n <=? 13)%nat).

Fixpoint trim_left (s : string) : string :=
  match s with
  | String a r => if is_blank a then trim_left r else s
  | EmptyString => EmptyString
  end.

Fixpoint trim_right (s : string) : string :=
  match s with
  | EmptyString => EmptyString
  | String a r =>
      match trim_right r with
      | EmptyString => if is_blank a then EmptyString else String a EmptyString
      | t => String a t
      end
  end.

Definition ascii_trim (s : string) : string := trim_right (trim_left s).

End RequestRest.

(** * Properties *)

(** ** The request accessors *)

Module RequestFacts.

Import Request.

Lemma toLowerCase_Referer : toLowerCase "Referer" = "referer".
Proof. reflexivity. Qed.

Lemma toLowerCase_Referrer : toLowerCase "Referrer" = "referrer".
Proof. reflexivity. Qed.

(** The two spellings run through the same case of the switch. *)
Lemma header_spellings_agree (this : request) :
  header this (JStr "Referer") = header this (JStr "Referrer").
Proof. reflexivity. Qed.

(** What the special case computes: [headers.referrer] when that is
    truthy, otherwise a property of [this.header]; [headers.referer]
    is never read. *)
Lemma header_referer_value (this : request) :
  header this (JStr "Referer")
  = Ok (js_or (get_prop (req_headers this) "referrer")
              (get_prop (req_header this) "referer")).
Proof. reflexivity. Qed.

Lemma header_function_no_referer : get_prop header_function "referer" = JUndefined.
Proof. reflexivity. Qed.

(** Every other name reads the bag under the lower-cased name. *)
Lemma header_other_name (this : request) (s : string) :
  s <> "" ->
  toLowerCase s <> "referer" -> toLowerCase s <> "referrer" ->
  header this (JStr s) = Ok (get_prop (req_headers this) (toLowerCase s)).
Proof.
  intros Hs H1 H2. unfold header. simpl.
  apply String.eqb_neq in Hs, H1, H2. rewrite Hs, H1, H2. reflexivity.
Qed.

(** A missing name, or a name that is no string, throws a TypeError. *)
Lemma header_bad_name (this : request) (name : jsval) :
  (forall s, name <> JStr s) -> exists msg, header this name = Throw (TypeError msg).
Proof.
  intros Hn. unfold header. destruct (truthy name); simpl; [|eauto].
  destruct name; eauto. exfalso. eapply Hn. reflexivity.
Qed.

(** C9: on a request whose header bag holds "referer", [req.get]
    is expected to return the stored value under either spelling.  The
    special case reads [this.header.referer], a property of the
    accessor function, where [this.headers.referer] is meant: the
    stored value is lost and [undefined] comes back. *)
Theorem header_referer_lost :
  get_prop (req_headers referer_request) "referer" = JStr "http://example.com/"
  /\ header referer_request (JStr "Referer") = Ok JUndefined
  /\ header referer_request (JStr "Referrer") = Ok JUndefined.
Proof. repeat split; reflexivity. Qed.

(** The same on every request: without a truthy [referrer] header the
    stored [referer] is not returned. *)
Lemma header_referer_ignored (this : request) :
  truthy (get_prop (req_headers this) "referrer") = false ->
  get_prop (req_header this) "referer" = JUndefined ->
  header this (JStr "Referer") = Ok JUndefined.
Proof.
  intros H1 H2. rewrite header_referer_value. unfold js_or.
  rewrite H1, H2. reflexivity.
Qed.

Section Param.

Variable Object_prototype : gmap string jsval.
Variable call_method : func -> js_object -> string -> result jsval.

(** With the method of [Object.prototype] the test on the parameters is
    the test for an own property. *)
Lemma call_hasOwnProperty_standard (bag : option js_object) (k : string) :
  standard_hasOwnProperty Object_prototype bag ->
  call_hasOwnProperty call_method (or_empty Object_prototype bag) k
  = Ok (JBool (hasOwnProperty (or_empty Object_prototype bag) k)).
Proof.
  unfold standard_hasOwnProperty, call_hasOwnProperty. intros H.
  destruct bag as [o|]; simpl in *.
  - rewrite H. reflexivity.
  - unfold get_prop. simpl. rewrite lookup_empty, H. reflexivity.
Qed.

Lemma own_value_spec (bag : option js_object) (k : string) :
  own_value bag k
  = if not_nullish (get_prop (or_empty Object_prototype bag) k)
       && hasOwnProperty (or_empty Object_prototype bag) k
    then Some (get_prop (or_empty Object_prototype bag) k) else None.
Proof.
  unfold own_value, get_prop, hasOwnProperty. destruct bag as [o|]; simpl.
  - destruct (own o !! k) as [v|] eqn:E.
    + rewrite bool_decide_eq_true_2 by eauto. rewrite andb_true_r. reflexivity.
    + rewrite bool_decide_eq_false_2 by (intros [? ?]; discriminate).
      rewrite andb_false_r. reflexivity.
  - rewrite lookup_empty.
    rewrite bool_decide_eq_false_2 by (intros [? ?]; discriminate).
    rewrite andb_false_r. reflexivity.
Qed.

Lemma any_value_spec (bag : option js_object) (k : string) :
  any_value Object_prototype bag k
  = if not_nullish (get_prop (or_empty Object_prototype bag) k)
    then Some (get_prop (or_empty Object_prototype bag) k) else None.
Proof.
  unfold any_value. destruct bag as [o|]; [reflexivity|].
  unfold get_prop. simpl. rewrite lookup_empty. reflexivity.
Qed.


End Param.



End RequestFacts.

(** ** Dispatch through applications *)

Module DispatchFacts.

Import Application.

Lemma exits_call e w : exits (fun k => k e w).
Proof. left. eauto. Qed.

Lemma exits_const o : exits (fun _ => o).
Proof. right. eauto. Qed.

Lemma exits_bind (F : cont -> outcome) (G : option jsval -> world -> cont -> outcome) :
  exits F ->
  (forall e w, exits (G e w)) ->
  exits (fun k => F (fun e w => G e w k)).
Proof.
  intros [(e & w & HF)|(o & HF)] HG.
  - destruct (HG e w) as [(e' & w' & H)|(o & H)].
    + left. exists e', w'. intros k. rewrite HF. apply H.
    + right. exists o. intros k. rewrite HF. apply H.
  - right. exists o. intros k. apply HF.
Qed.

Lemma run_exits p : exits (run p).
Proof.
  destruct p as [w [e| |v]]; simpl.
  - apply exits_call.
  - apply exits_const.
  - apply exits_call.
Qed.

Section Exits.

Variable R : Runtime.
Variable st : store.
Variable handle_rec : app_id -> world -> option cont -> outcome.
Hypothesis handle_rec_exits :
  forall a w, exits (fun k => handle_rec a w (Some k)).

Lemma mounted_app_exits c w : exits (mounted_app handle_rec c w).
Proof using handle_rec_exits.
  unfold mounted_app.
  apply (exits_bind (fun k => handle_rec c w (Some k))
           (fun err w' next =>
              match req_app w with
              | Some o => next err (restore_protos o w')
              | None => Uncaught (TypeError "Cannot read properties of undefined (reading 'request')") w'
              end)).
  - apply handle_rec_exits.
  - intros e w'. destruct (req_app w); [apply exits_call|apply exits_const].
Qed.

Lemma mounted_obj_exits fn w : exits (mounted_obj R fn w).
Proof.
  unfold mounted_obj. destruct (is_function (prop_of fn "handle")).
  - destruct (object_handle R fn w) as [w' [e| |v]].
    + destruct (req_app w); [apply exits_call|apply exits_const].
    + apply exits_const.
    + apply exits_call.
  - apply exits_call.
Qed.

Lemma call_fn_exits f err w : exits (call_fn R handle_rec f err w).
Proof using handle_rec_exits.
  destruct f; simpl; try apply run_exits.
  - apply mounted_app_exits.
  - apply mounted_obj_exits.
  - apply handle_rec_exits.
Qed.

Lemma route_next_exits all entries :
  forall err w, exits (route_next R handle_rec all entries err w).
Proof using handle_rec_exits.
  induction entries as [|[m f] rest IH]; intros err w; simpl.
  - apply exits_call.
  - destruct (method_applies all m (method w) && eligible f err).
    + apply (exits_bind (call_fn R handle_rec f err (log_event (EvCall f) w))
               (fun e w' next => route_next R handle_rec all rest e w' next)).
      * apply call_fn_exits.
      * intros e w'. apply IH.
    + apply IH.
Qed.

Lemma router_next_exits cs sr ls :
  forall err w, exits (router_next R st handle_rec cs sr ls err w).
Proof using handle_rec_exits.
  induction ls as [|l rest IH]; intros err w; simpl.
  - apply exits_call.
  - destruct (layer_match R (layer_path l) cs sr (layer_end l) (url w))
      as [[remainder ps]|]; [|apply IH].
    destruct (layer_handle l) as [f|r].
    + destruct (eligible f err); [|apply IH].
      apply (exits_bind
               (call_fn R handle_rec f err
                  (log_event (EvCall f) (enter_layer remainder ps w)))
               (fun e w' done =>
                  router_next R st handle_rec cs sr rest e (leave_layer w w') done)).
      * apply call_fn_exits.
      * intros e w'. apply IH.
    + destruct err; [apply IH|].
      destruct (routes st !! r) as [rt|]; [|apply IH].
      apply (exits_bind
               (route_next R handle_rec (route_stack rt) (route_stack rt) None
                  (enter_layer remainder ps w))
               (fun e w' done =>
                  router_next R st handle_rec cs sr rest e (leave_layer w w') done)).
      * apply route_next_exits.
      * intros e w'. apply IH.
Qed.

End Exits.

(** Every dispatch through an application leaves one of the two ways. *)
Lemma handle_exits R st fuel :
  forall a w, exits (fun k => handle R st fuel a w (Some k)).
Proof.
  induction fuel as [|n IH]; intros a w; simpl.
  - apply exits_const.
  - unfold handle_body. destruct (router_of a st) as [r|].
    + apply router_next_exits. apply IH.
    + apply exits_call.
Qed.

(** The two ways exclude each other. *)
Lemma exits_exclusive (F : cont -> outcome) e w o :
  (forall k, F k = k e w) -> (forall k, F k = o) -> False.
Proof.
  intros H1 H2.
  pose proof (H1 (fun _ _ => OutOfFuel)) as A.
  pose proof (H1 (fun _ w => Returned w)) as B.
  rewrite H2 in A, B. simpl in *. congruence.
Qed.

(** A Router without Layers, or no Router, calls back at once. *)
Lemma handle_body_no_layers R st handle_rec this w cb :
  layers_of this st = [] ->
  handle_body R st handle_rec this w (Some cb) = cb None w.
Proof.
  intros Hl. unfold handle_body, layers_of in *.
  destruct (router_of this st) as [r|]; [|reflexivity].
  simpl in Hl. unfold router_handle. rewrite Hl. reflexivity.
Qed.

(** C2: when dispatch has nothing to run, in particular when the
    application has no router, [handle] with one unit of fuel or more
    calls the callback once, without an error, in the world it was
    given: no handler has been invoked. *)
Theorem handle_nothing_to_run R st n this w :
  layers_of this st = [] ->
  (forall cb, handle R st (S n) this w (Some cb) = cb None w)
  /\ (exists w', handle R st (S n) this w (Some recording_done) = Returned w'
                 /\ log w' = log w ++ [EvDone None]).
Proof.
  intros Hl. split.
  - intros cb. apply handle_body_no_layers, Hl.
  - exists (log_event (EvDone None) w). split; [|reflexivity].
    exact (handle_body_no_layers R st (handle R st n) this w recording_done Hl).
Qed.

Lemma handle_nothing_to_run_witness :
  layers_of 0 one_app = []
  /\ handle example_runtime one_app 1 0 (get_request "/") (Some recording_done)
     = Returned (log_event (EvDone None) (get_request "/")).
Proof.
  split; [reflexivity|].
  apply (handle_nothing_to_run example_runtime one_app 0 0 (get_request "/")).
  reflexivity.
Defined.


(** C3: when the child leaves through its callback, with an error or
    without, the function registered for the mount calls the parent's
    [next] in a world in which the request and the response have the
    prototypes of the parent application again, as on entry, and the
    rest of the world is as the child left it. *)
Theorem mounted_app_restores_prototypes R st n child w next parent e w' :
  req_proto w = Some parent ->
  res_proto w = Some parent ->
  (forall k, handle R st n child w (Some k) = k e w') ->
  exists w'',
    mounted_app (handle R st n) child w next = next e w''
    /\ req_proto w'' = Some parent /\ res_proto w'' = Some parent
    /\ req_proto w'' = req_proto w /\ res_proto w'' = res_proto w
    /\ url w'' = url w' /\ method w'' = method w'
    /\ params w'' = params w' /\ log w'' = log w'.
Proof.
  intros Hq Hs Hc. exists (restore_protos parent w').
  split.
  - unfold mounted_app, req_app. rewrite Hq, Hc. reflexivity.
  - rewrite Hq, Hs. repeat split; reflexivity.
Qed.


Lemma mounted_app_restores_prototypes_witness :
  req_proto inside_mount = Some 0
  /\ res_proto inside_mount = Some 0
  /\ (forall k, handle example_runtime heard 2 1 inside_mount (Some k)
                = k None after_child)
  /\ req_proto after_child = Some 1
  /\ res_proto after_child = Some 1
  /\ exists w'',
       mounted_app (handle example_runtime heard 2) 1 inside_mount recording_done
       = recording_done None w''
       /\ req_proto w'' = Some 0 /\ res_proto w'' = Some 0
       /\ req_proto w'' = req_proto inside_mount
       /\ res_proto w'' = res_proto inside_mount
       /\ url w'' = url after_child /\ method w'' = method after_child
       /\ params w'' = params after_child /\ log w'' = log after_child.
Proof.
  assert (Hc : forall k, handle example_runtime heard 2 1 inside_mount (Some k)
                         = k None after_child)
    by (intros k; vm_compute; reflexivity).
  split; [reflexivity|]. split; [reflexivity|]. split; [exact Hc|].
  split; [reflexivity|]. split; [reflexivity|].
  apply (mounted_app_restores_prototypes example_runtime heard 2 1 inside_mount
           recording_done 0 None after_child); [reflexivity|reflexivity|exact Hc].
Defined.

(** C8: the value that [createApplication] returns is a function, and
    calling it is calling its [handle]: with the same request,
    response and continuation the two have the same outcome, at every
    fuel, from the embedder and from a Router that holds the
    application as a handler. *)
Theorem application_call_is_handle C st :
  let a := length (apps st) in
  fst (createApplication C st) = Ok (JFun (AppFn a))
  /\ is_function (JFun (AppFn a)) = true
  /\ as_app (JFun (AppFn a)) = Some a
  /\ (forall R st' fuel w next,
        call_app R st' fuel a w next = handle R st' fuel a w next)
  /\ (forall R st' fuel err w k,
        call_fn R (handle R st' fuel) (AppFn a) err w k
        = handle R st' fuel a w (Some k)).
Proof.
  intros a. split; [|repeat split].
  unfold createApplication, init, defaultConfiguration, enable, set,
    assign_setting, on, bind, modify, gets, ret. simpl.
  destruct (is_production (js_or (NODE_ENV C) (JStr "development")));
    reflexivity.
Qed.

End DispatchFacts.

(** ** Registration *)

Module RegistrationFacts.

Import Application.
Local Open Scope js_scope.

(** *** The store under the updates of one application *)

Lemma router_of_upd_same a f st :
  router_of a (upd_app a f st) = apps st !! a ≫= (fun x => _router (f x)).
Proof.
  unfold router_of, upd_app. simpl. rewrite list_lookup_alter_eq.
  destruct (apps st !! a); reflexivity.
Qed.

Lemma router_of_upd_frame a b f st :
  (forall x, _router (f x) = _router x) ->
  router_of b (upd_app a f st) = router_of b st.
Proof.
  intros Hf. destruct (decide (a = b)) as [->|Hne].
  - rewrite router_of_upd_same. unfold router_of.
    destruct (apps st !! b); simpl; [apply Hf|reflexivity].
  - unfold router_of, upd_app. simpl.
    rewrite list_lookup_alter_ne by exact Hne. reflexivity.
Qed.

Lemma router_of_push a l r st :
  router_of a st = Some r ->
  router_of a (upd_app a (push_layer l) st)
  = Some (mkRouter (stack r ++ [l]) (caseSensitive r) (strict r)).
Proof.
  intros H. rewrite router_of_upd_same. unfold router_of in H.
  destruct (apps st !! a) as [x|]; [|discriminate]. simpl in *.
  unfold push_layer. rewrite H. reflexivity.
Qed.

(** *** What dispatch reads of the store *)

Lemma same_routing_refl st : same_routing st st.
Proof. repeat split. Qed.

Lemma same_routing_sym st st' : same_routing st st' -> same_routing st' st.
Proof. intros (H1 & H2 & H3). repeat split; auto. Qed.

Lemma same_routing_trans s1 s2 s3 :
  same_routing s1 s2 -> same_routing s2 s3 -> same_routing s1 s3.
Proof.
  intros (A1 & A2 & A3) (B1 & B2 & B3). repeat split.
  - congruence.
  - intros a. rewrite A2. apply B2.
  - congruence.
Qed.

Lemma same_routing_upd a f st :
  (forall x, _router (f x) = _router x) -> same_routing st (upd_app a f st).
Proof.
  intros Hf. repeat split.
  - unfold upd_app. simpl. rewrite length_alter. reflexivity.
  - intros b. symmetry. apply router_of_upd_frame, Hf.
Qed.

Lemma same_routing_upd_both a f s t :
  (forall x y, _router x = _router y -> _router (f x) = _router (f y)) ->
  same_routing s t -> same_routing (upd_app a f s) (upd_app a f t).
Proof.
  intros Hf (Hl & Hr & Hrt). repeat split.
  - unfold upd_app. simpl. rewrite !length_alter. exact Hl.
  - intros b. destruct (decide (a = b)) as [->|Hne].
    + rewrite !router_of_upd_same. specialize (Hr b). unfold router_of in Hr.
      destruct (apps s !! b) as [x|] eqn:Es, (apps t !! b) as [y|] eqn:Et;
        simpl in *.
      * apply Hf, Hr.
      * apply lookup_ge_None in Et. apply lookup_lt_Some in Es. lia.
      * apply lookup_ge_None in Es. apply lookup_lt_Some in Et. lia.
      * reflexivity.
    + unfold router_of, upd_app. simpl.
      rewrite !list_lookup_alter_ne by exact Hne. apply Hr.
  - exact Hrt.
Qed.

(** *** Computations that keep a relation between the store before
    and the store after *)

Section Keeps.

Variable P : store -> store -> Prop.
Hypothesis P_refl : forall st, P st st.
Hypothesis P_trans : forall s1 s2 s3, P s1 s2 -> P s2 s3 -> P s1 s3.

Lemma keeps_ret {A} (a : A) : keeps P (ret a).
Proof using P_refl. intros st. apply P_refl. Qed.

Lemma keeps_throw {A} e : keeps P (@throw A e).
Proof using P_refl. intros st. apply P_refl. Qed.

Lemma keeps_gets {A} (f : store -> A) : keeps P (gets f).
Proof using P_refl. intros st. apply P_refl. Qed.

Lemma keeps_modify f : (forall st, P st (f st)) -> keeps P (modify f).
Proof. intros H st. apply H. Qed.

Lemma keeps_bind {A B} (m : M A) (k : A -> M B) :
  keeps P m -> (forall x, keeps P (k x)) -> keeps P (bind m k).
Proof using P_trans.
  intros Hm Hk st. specialize (Hm st). unfold exec, bind in *.
  destruct (m st) as [[a|e] st1]; simpl in *.
  - eapply P_trans; [exact Hm|]. apply Hk.
  - exact Hm.
Qed.

Lemma keeps_forEach {A} (l : list A) (f : A -> M unit) :
  (forall x, keeps P (f x)) -> keeps P (forEach l f).
Proof using P_refl P_trans.
  intros Hf. induction l as [|x r IH]; simpl.
  - apply keeps_ret.
  - apply keeps_bind; [apply Hf|intros _; exact IH].
Qed.

Lemma keeps_if {A} (b : bool) (m1 m2 : M A) :
  keeps P m1 -> keeps P m2 -> keeps P (if b then m1 else m2).
Proof. destruct b; auto. Qed.

End Keeps.

Lemma same_routing_setPrototypeOf s this parent :
  keeps same_routing (setPrototypeOf s this parent).
Proof.
  intros st. unfold exec, setPrototypeOf.
  destruct (proto_reaches s (length (apps st)) st parent this); simpl.
  - apply same_routing_refl.
  - apply same_routing_upd. intros x. destruct s; reflexivity.
Qed.

Lemma same_routing_delete_setting this k :
  keeps same_routing (delete_setting this k).
Proof.
  apply keeps_modify. intros st. apply same_routing_upd. reflexivity.
Qed.

Ltac keeps_routing :=
  repeat first
    [ apply keeps_bind; [exact same_routing_trans| |intros ?]
    | apply keeps_if
    | apply keeps_gets; exact same_routing_refl
    | apply keeps_ret; exact same_routing_refl
    | apply same_routing_setPrototypeOf
    | apply same_routing_delete_setting ].

Lemma same_routing_onmount this parent : keeps same_routing (onmount this parent).
Proof. unfold onmount. keeps_routing. Qed.

(** The mount event leaves every Router and every Route as it is,
    whether the listener ends or throws. *)
Lemma same_routing_emit this event arg : keeps same_routing (emit this event arg).
Proof.
  unfold emit. keeps_routing.
  - apply keeps_modify. intros st. repeat split.
  - apply keeps_forEach;
      [exact same_routing_refl|exact same_routing_trans|].
    intros []. apply same_routing_onmount.
Qed.

Lemma same_emitted_onmount this parent : keeps same_emitted (onmount this parent).
Proof.
  assert (Hr : forall st, same_emitted st st) by reflexivity.
  assert (Ht : forall s1 s2 s3, same_emitted s1 s2 -> same_emitted s2 s3 ->
                                same_emitted s1 s3)
    by (unfold same_emitted; congruence).
  assert (Hp : forall s a b, keeps same_emitted (setPrototypeOf s a b)).
  { intros s a b st. unfold exec, setPrototypeOf.
    destruct (proto_reaches s (length (apps st)) st b a); reflexivity. }
  unfold onmount.
  repeat first
    [ apply keeps_bind; [exact Ht| |intros ?]
    | apply keeps_if
    | apply keeps_gets; exact Hr
    | apply keeps_ret; exact Hr
    | apply Hp
    | apply keeps_modify; intros ?; reflexivity ].
Qed.

Lemma emitted_emit this event arg st :
  emitted (exec (emit this event arg) st) = emitted st ++ [(this, event, arg)].
Proof.
  unfold emit, exec, bind, modify, gets. simpl.
  set (st1 := mkStore (apps st) (routes st) (emitted st ++ [(this, event, arg)])).
  change (emitted st ++ [(this, event, arg)]) with (emitted st1).
  symmetry.
  apply (keeps_forEach same_emitted).
  - reflexivity.
  - unfold same_emitted. congruence.
  - intros []. apply same_emitted_onmount.
Qed.

(** *** Dispatch reads the Routers and the Routes alone *)

Lemma router_next_routes R st st' h cs sr ls :
  routes st = routes st' ->
  forall err w done,
    router_next R st h cs sr ls err w done = router_next R st' h cs sr ls err w done.
Proof.
  intros Hr. induction ls as [|l rest IH]; intros err w done; simpl.
  - reflexivity.
  - destruct (layer_match R (layer_path l) cs sr (layer_end l) (url w))
      as [[remainder ps]|]; [|apply IH].
    assert (Hk : (fun e w' => router_next R st h cs sr rest e (leave_layer w w') done)
                 = (fun e w' => router_next R st' h cs sr rest e (leave_layer w w') done)).
    { apply functional_extensionality. intros e.
      apply functional_extensionality. intros w'. apply IH. }
    destruct (layer_handle l) as [f|r].
    + destruct (eligible f err); [|apply IH]. rewrite Hk. reflexivity.
    + rewrite <- Hr. destruct err; [apply IH|].
      destruct (routes st !! r); [|apply IH]. rewrite Hk. reflexivity.
Qed.

Lemma handle_same_routing R st st' :
  same_routing st st' ->
  forall fuel a w cb, handle R st fuel a w cb = handle R st' fuel a w cb.
Proof.
  intros (_ & Hro & Hrt). induction fuel as [|n IH]; intros a w cb; simpl.
  - reflexivity.
  - assert (Hh : handle R st n = handle R st' n).
    { apply functional_extensionality. intros a'.
      apply functional_extensionality. intros w'.
      apply functional_extensionality. intros cb'. apply IH. }
    unfold handle_body. rewrite <- Hro, <- Hh.
    destruct cb as [done|]; [|reflexivity].
    destruct (router_of a st) as [r|]; [|reflexivity].
    unfold router_handle. apply router_next_routes, Hrt.
Qed.

(** *** The mount event *)

Lemma use_each_app_exec C this path c st :
  exec (use_each C this path (JFun (AppFn c))) st
  = exec (emit c "mount" this)
      (upd_app this (push_layer (mkLayer path false (HFunc (MountedApp c))))
         (upd_app c (with_parent (Some this))
            (upd_app c (with_mountpath path) st))).
Proof. reflexivity. Qed.

(** *** [lazyrouter] *)

Lemma lazyrouter_existing C this r st :
  router_of this st = Some r -> lazyrouter C this st = (Ok tt, st).
Proof. intros H. unfold lazyrouter, bind, gets. rewrite H. reflexivity. Qed.

Lemma lazyrouter_creates C this st :
  router_of this st = None ->
  lazyrouter C this st
  = (Ok tt,
     upd_app this (push_layer (mkLayer (JStr "/") false (HFunc (InitMw this))))
       (upd_app this
          (push_layer
             (mkLayer (JStr "/") false
                (HFunc (QueryMw
                   (settings_get this "query parser fn"
                      (upd_app this
                         (with_router
                            (Some (mkRouter []
                               (truthy (settings_get this "case sensitive routing" st))
                               (truthy (settings_get this "strict routing" st)))))
                         st))))))
          (upd_app this
             (with_router
                (Some (mkRouter []
                   (truthy (settings_get this "case sensitive routing" st))
                   (truthy (settings_get this "strict routing" st)))))
             st))).
Proof. intros H. unfold lazyrouter, bind, gets. rewrite H. reflexivity. Qed.

Lemma lazyrouter_ok C this st : fst (lazyrouter C this st) = Ok tt.
Proof.
  destruct (router_of this st) as [r|] eqn:E.
  - erewrite lazyrouter_existing by exact E. reflexivity.
  - rewrite lazyrouter_creates by exact E. reflexivity.
Qed.

Lemma lazyrouter_router C this st :
  is_Some (apps st !! this) ->
  exists r, router_of this (exec (lazyrouter C this) st) = Some r.
Proof.
  intros [x Hx]. unfold exec. destruct (router_of this st) as [r|] eqn:E.
  - erewrite lazyrouter_existing by exact E. eauto.
  - rewrite lazyrouter_creates by exact E. simpl.
    eexists. erewrite router_of_push; [reflexivity|].
    erewrite router_of_push; [reflexivity|].
    rewrite router_of_upd_same, Hx. reflexivity.
Qed.

Lemma lazyrouter_routes C this st :
  routes (exec (lazyrouter C this) st) = routes st.
Proof.
  unfold exec. destruct (router_of this st) as [r|] eqn:E.
  - erewrite lazyrouter_existing by exact E. reflexivity.
  - rewrite lazyrouter_creates by exact E. reflexivity.
Qed.

(** *** [use] *)

Lemma flatten_flat_map l : flatten l = flat_map flatten_value l.
Proof.
  unfold flatten. simpl. induction l as [|x r IH]; simpl; [reflexivity|].
  rewrite IH. reflexivity.
Qed.

Lemma use_offset_path_spec args :
  use_offset_path args
  = if is_function (first_leaf (nth 0 args JUndefined))
    then (0, JStr "/") else (1, nth 0 args JUndefined).
Proof.
  unfold use_offset_path. destruct (nth 0 args JUndefined) as [| | | | |l| |f]; simpl;
    try reflexivity.
  destruct l as [|x l]; simpl; [reflexivity|].
  destruct (is_function (first_leaf x)); reflexivity.
Qed.

Lemma as_app_Some fn c : as_app fn = Some c -> fn = JFun (AppFn c).
Proof.
  destruct fn as [| | | | | | |f]; try discriminate.
  destruct f; try discriminate. simpl. congruence.
Qed.

Lemma duck_app_spec fn : duck_app fn = has_handle_and_set fn.
Proof. reflexivity. Qed.

Lemma registered_duck fn :
  as_app fn = None -> duck_app fn = true -> registered fn = Some (MountedObj fn).
Proof.
  intros Ha H. rewrite duck_app_spec in H.
  destruct fn as [| | | | | |props|f]; try discriminate H.
  - unfold registered. rewrite H. reflexivity.
  - unfold registered, use_handler. destruct f; try discriminate H.
    rewrite H. reflexivity.
Qed.

(** The loop of [use] over the first elements ends on a function
    exactly when the value starts with a handler. *)
Lemma function_led_first_leaf v :
  function_led v -> is_function (first_leaf v) = true.
Proof. induction 1; simpl; [reflexivity|assumption]. Qed.

Lemma first_leaf_function_led :
  forall v, is_function (first_leaf v) = true -> function_led v.
Proof.
  fix IH 1. intros [| | | | |[|x l]| |f]; simpl; try discriminate.
  - intros H. apply led_array, IH, H.
  - intros _. apply led_function.
Qed.

(** [flatten] lists the handlers of an argument from left to right. *)
Lemma flatten_value_arg :
  forall h, flatten_value (arg_value h) = map JFun (in_order h).
Proof.
  fix IH 1. intros [f|l]; [reflexivity|].
  simpl. induction l as [|h l IHl]; simpl; [reflexivity|].
  rewrite IH, IHl, map_app. reflexivity.
Qed.

Lemma flatten_args hs :
  flatten (map arg_value hs) = map JFun (flat_map in_order hs).
Proof.
  rewrite flatten_flat_map. induction hs as [|h hs IH]; simpl; [reflexivity|].
  rewrite flatten_value_arg, IH, map_app. reflexivity.
Qed.

(** What [use] reads off the arguments of the two forms of the call. *)
Lemma use_args_offset path hs :
  match path with
  | Some p => ~ function_led p
  | None => function_led (nth 0 (map arg_value hs) JUndefined)
  end ->
  use_offset_path (use_args path hs)
  = (match path with Some _ => 1 | None => 0 end, default (JStr "/") path)
  /\ drop (match path with Some _ => 1 | None => 0 end) (use_args path hs)
     = map arg_value hs.
Proof.
  intros H. rewrite use_offset_path_spec. destruct path as [p|]; simpl.
  - split; [|reflexivity].
    destruct (is_function (first_leaf p)) eqn:E; [|reflexivity].
    exfalso. apply H, first_leaf_function_led, E.
  - rewrite (function_led_first_leaf _ H). split; reflexivity.
Qed.

(** One run of the callback of [forEach] that ends appends one Layer. *)
Lemma use_each_ok C this path fn r st st' :
  router_of this st = Some r ->
  use_each C this path fn st = (Ok tt, st') ->
  exists f, registered fn = Some f
    /\ router_of this st'
       = Some (mkRouter (stack r ++ [handler_layer path f])
                        (caseSensitive r) (strict r)).
Proof.
  intros Hr Hu. destruct (as_app fn) as [c|] eqn:Ea.
  - apply as_app_Some in Ea. subst fn. exists (MountedApp c). split; [reflexivity|].
    assert (Hst : st' = exec (use_each C this path (JFun (AppFn c))) st)
      by (unfold exec; rewrite Hu; reflexivity).
    rewrite Hst, use_each_app_exec.
    destruct (same_routing_emit c "mount" this
                (upd_app this (push_layer (mkLayer path false (HFunc (MountedApp c))))
                   (upd_app c (with_parent (Some this))
                      (upd_app c (with_mountpath path) st))))
      as (_ & Hro & _).
    rewrite <- Hro. apply router_of_push.
    rewrite !router_of_upd_frame by reflexivity. exact Hr.
  - unfold use_each in Hu. rewrite Ea in Hu.
    destruct (duck_app fn) eqn:Ed.
    + exists (MountedObj fn). split; [apply registered_duck; assumption|].
      unfold bind, router_use, modify in Hu.
      destruct (is_function (prop_of fn "emit")); [|discriminate].
      destruct (object_emit C fn "mount" this _) as [[]|e]; [|discriminate].
      injection Hu as <-. apply router_of_push, Hr.
    + destruct fn as [| | | | | | |f]; try discriminate.
      exists f.
      assert (use_handler f = f) as Hf
        by (rewrite duck_app_spec in Ed; unfold use_handler; rewrite Ed;
            destruct f; try reflexivity; discriminate).
      split; [simpl; rewrite Hf; reflexivity|].
      unfold router_use, modify in Hu. injection Hu as <-.
      apply router_of_push, Hr.
Qed.

Lemma forEach_use_each_ok C this path fns :
  forall r st st',
    router_of this st = Some r ->
    forEach fns (use_each C this path) st = (Ok tt, st') ->
    exists fs, map registered fns = map Some fs
      /\ router_of this st'
         = Some (mkRouter (stack r ++ map (handler_layer path) fs)
                          (caseSensitive r) (strict r)).
Proof.
  induction fns as [|fn rest IH]; intros r st st' Hr Hf; simpl in Hf.
  - injection Hf as <-. exists []. simpl. rewrite app_nil_r.
    split; [reflexivity|]. rewrite Hr. destruct r; reflexivity.
  - unfold bind in Hf.
    destruct (use_each C this path fn st) as [[[]|e] st1] eqn:E; [|discriminate].
    destruct (use_each_ok C this path fn r st st1 Hr E) as (f & Hreg & Hr1).
    destruct (IH _ _ _ Hr1 Hf) as (fs & Hfs & Hr2).
    exists (f :: fs). split; [simpl; rewrite Hreg, Hfs; reflexivity|].
    rewrite Hr2. simpl. rewrite <- app_assoc. reflexivity.
Qed.

Lemma registered_functions fs :
  map registered (map JFun fs) = map Some (map use_handler fs).
Proof. induction fs as [|f fs IH]; simpl; [reflexivity|]. rewrite IH. reflexivity. Qed.

Lemma map_Some_inj {A} (l l' : list A) : map Some l = map Some l' -> l = l'.
Proof.
  revert l'. induction l as [|x l IH]; intros [|y l'] H; simpl in H;
    try discriminate; [reflexivity|].
  injection H as -> H. f_equal. apply IH, H.
Qed.

(** Handlers that [use] registers as they are, are always accepted. *)
Lemma forEach_plain_ok C this path fs :
  Forall (fun f => plain_handler f = true) fs ->
  forall st, fst (forEach (map JFun fs) (use_each C this path) st) = Ok tt.
Proof.
  induction 1 as [|f fs Hf _ IH]; intros st; simpl; [reflexivity|].
  assert (Ea : as_app (JFun f) = None) by (destruct f; try reflexivity; discriminate).
  assert (Hd : duck_app (JFun f) = false).
  { rewrite duck_app_spec. unfold plain_handler in Hf.
    destruct f; try reflexivity; try discriminate.
    apply negb_true_iff in Hf. exact Hf. }
  unfold bind, use_each at 1. rewrite Ea, Hd. simpl. apply IH.
Qed.

Lemma use_plain_ok C this args fs :
  flatten (drop (fst (use_offset_path args)) args) = map JFun fs ->
  fs <> [] ->
  Forall (fun f => plain_handler f = true) fs ->
  forall st, fst (use C this args st) = Ok this.
Proof.
  intros Hfs Hne Hall st. unfold use.
  destruct (use_offset_path args) as [offset path]. simpl in Hfs. rewrite Hfs.
  destruct fs as [|f fs]; [congruence|]. cbn [map length Nat.eqb].
  unfold bind. pose proof (lazyrouter_ok C this st) as Hok.
  destruct (lazyrouter C this st) as [[[]|e] st1]; [|discriminate].
  pose proof (forEach_plain_ok C this path (f :: fs) Hall st1) as Hf.
  cbn [map] in Hf.
  destruct (forEach (JFun f :: map JFun fs) (use_each C this path) st1)
    as [[[]|e] st2]; [reflexivity|discriminate].
Qed.

(** C4, as the code has it: a call of [use] with a path that does not
    start with a handler, or with no path and a first argument that
    starts with a handler, appends one Layer for each handler of the
    arguments, nested arrays flattened, from left to right, behind the
    Layers the router had (those of [lazyrouter] on its creation), all
    under the path, or under "/" when there is none.  Handlers that
    [use] does not take for applications are always accepted. *)
Theorem use_appends_layers C st this path hs :
  is_Some (apps st !! this) ->
  match path with
  | Some p => ~ function_led p
  | None => function_led (nth 0 (map arg_value hs) JUndefined)
  end ->
  (forall st',
     use C this (use_args path hs) st = (Ok this, st') ->
     layers_of this st'
     = layers_of this (exec (lazyrouter C this) st)
       ++ map (use_layer (default (JStr "/") path)) (flat_map in_order hs))
  /\ (flat_map in_order hs <> [] ->
      Forall (fun f => plain_handler f = true) (flat_map in_order hs) ->
      fst (use C this (use_args path hs) st) = Ok this).
Proof.
  intros Hthis Hled.
  destruct (use_args_offset path hs Hled) as [Hop Hdrop].
  assert (Hfl : flatten (drop (fst (use_offset_path (use_args path hs)))
                           (use_args path hs))
                = map JFun (flat_map in_order hs))
    by (rewrite Hop; simpl fst; rewrite Hdrop; apply flatten_args).
  split.
  - intros st' Hu. unfold use in Hu. rewrite Hop in Hu. rewrite Hop in Hfl.
    simpl fst in Hfl. rewrite Hfl in Hu.
    destruct (Nat.eqb (length (map JFun (flat_map in_order hs))) 0); [discriminate|].
    unfold bind in Hu.
    destruct (lazyrouter_router C this st Hthis) as [r Hr].
    pose proof (lazyrouter_ok C this st) as Hok. unfold exec in *.
    destruct (lazyrouter C this st) as [[[]|e] st1]; [|discriminate]. simpl in Hr.
    destruct (forEach (map JFun (flat_map in_order hs))
                (use_each C this (default (JStr "/") path)) st1)
      as [[[]|e] st2] eqn:Ef; [|discriminate].
    injection Hu as <-.
    destruct (forEach_use_each_ok C this _ _ r st1 st2 Hr Ef) as (fs & Hfs & Hr2).
    rewrite registered_functions in Hfs. apply map_Some_inj in Hfs. subst fs.
    unfold layers_of. simpl. rewrite Hr, Hr2. simpl.
    rewrite map_map. reflexivity.
  - intros Hne Hall. apply (use_plain_ok C this _ _ Hfl Hne Hall).
Qed.

Lemma use_appends_layers_witness :
  is_Some (apps one_app !! 0)
  /\ function_led (nth 0 (map arg_value example_handlers) JUndefined)
  /\ use_args None example_handlers = use_example_args
  /\ (forall st',
        use example_config 0 use_example_args one_app = (Ok 0, st') ->
        layers_of 0 st'
        = [mkLayer (JStr "/") false (HFunc (QueryMw (JFun (ExternFn "qs"))));
           mkLayer (JStr "/") false (HFunc (InitMw 0));
           mkLayer (JStr "/") false (HFunc (UserFn 1 3));
           mkLayer (JStr "/") false (HFunc (UserFn 2 3));
           mkLayer (JStr "/") false (HFunc (UserFn 3 3))])
  /\ fst (use example_config 0 use_example_args one_app) = Ok 0.
Proof.
  assert (Hled : function_led (nth 0 (map arg_value example_handlers) JUndefined))
    by (apply led_array, led_function).
  split; [vm_compute; eauto|]. split; [exact Hled|]. split; [reflexivity|].
  destruct (use_appends_layers example_config one_app 0 None example_handlers)
    as [H1 H2]; [vm_compute; eauto|exact Hled|].
  split; [exact H1|].
  apply H2; [discriminate|]. repeat constructor.
Defined.

(** C4, as stated, fails: a handler behind an empty array is not
    registered.  The call [use([[], f])] takes its one argument for the
    path, finds no handler and throws; the call [use([], f)] registers
    [f] under the empty array as the path and not under "/". *)
Lemma use_leading_empty_array :
  use_args None empty_led_handlers = [JArr [JArr []; JFun (UserFn 1 3)]]
  /\ flat_map in_order empty_led_handlers = [UserFn 1 3]
  /\ use example_config 0 [JArr [JArr []; JFun (UserFn 1 3)]] one_app
     = (Throw (TypeError "app.use() requires a middleware function"), one_app)
  /\ fst (use example_config 0 [JArr []; JFun (UserFn 1 3)] one_app) = Ok 0
  /\ layers_of 0 (exec (use example_config 0 [JArr []; JFun (UserFn 1 3)]) one_app)
     = [mkLayer (JStr "/") false (HFunc (QueryMw (JFun (ExternFn "qs"))));
        mkLayer (JStr "/") false (HFunc (InitMw 0));
        mkLayer (JArr []) false (HFunc (UserFn 1 3))].
Proof.
  split; [reflexivity|]. split; [reflexivity|]. split; [reflexivity|].
  split; vm_compute; reflexivity.
Qed.

(** Without a handler [use] throws before it touches the application. *)
Lemma use_requires_handler C this args st :
  flatten (drop (fst (use_offset_path args)) args) = [] ->
  use C this args st
  = (Throw (TypeError "app.use() requires a middleware function"), st).
Proof.
  intros H. unfold use. destruct (use_offset_path args) as [offset path].
  simpl in H. rewrite H. reflexivity.
Qed.

Lemma no_function_drop n args :
  no_function args = true -> no_function (drop n args) = true.
Proof.
  unfold no_function. rewrite !flatten_flat_map, !forallb_forall.
  intros H x Hx. apply H.
  rewrite <- (take_drop n args), flat_map_app. apply in_or_app. right. exact Hx.
Qed.

(** With a handler value [use] makes sure of the router and goes
    through the values, first value first. *)
Lemma use_first_value C this args fn rest st :
  flatten (drop (fst (use_offset_path args)) args) = fn :: rest ->
  use C this args st
  = (use_each C this (snd (use_offset_path args)) fn ;;
     forEach rest (use_each C this (snd (use_offset_path args))) ;;
     ret this) (exec (lazyrouter C this) st).
Proof.
  intros Hf. unfold use. destruct (use_offset_path args) as [offset path].
  simpl in Hf. simpl snd. rewrite Hf. cbn [length Nat.eqb forEach].
  unfold bind, exec. pose proof (lazyrouter_ok C this st) as Hok.
  destruct (lazyrouter C this st) as [[[]|e] st1]; [|discriminate].
  simpl. unfold bind.
  destruct (use_each C this path fn st1) as [[[]|e] st2]; reflexivity.
Qed.

(** The first step on a plain object that [use] takes for an
    application: the Layer, then the call of [emit]. *)
Lemma use_each_duck C this path fn st :
  as_app fn = None -> duck_app fn = true ->
  use_each C this path fn st
  = (if is_function (prop_of fn "emit")
     then (object_emit C fn "mount" this
             (upd_app this (push_layer (handler_layer path (MountedObj fn))) st),
           upd_app this (push_layer (handler_layer path (MountedObj fn))) st)
     else (Throw (TypeError "fn.emit is not a function"),
           upd_app this (push_layer (handler_layer path (MountedObj fn))) st)).
Proof.
  intros Ha Hd. unfold use_each. rewrite Ha, Hd.
  unfold bind, router_use, modify, throw, handler_layer.
  destruct (is_function (prop_of fn "emit")); reflexivity.
Qed.

(** C5, as the code has it: a call of [use] whose arguments hold no
    function.  With no handler value at all it throws the TypeError of
    [use] and leaves the application as it was.  With handler values
    the router is there first, created by [lazyrouter] when it was
    missing, and the first value decides.  A value that is not an
    object with [handle] and [set] is rejected by the Router, and no
    Layer is appended.  An object with a truthy [handle] and [set] is
    taken for an application: its Layer is appended, then [emit] is
    called on it, which throws a TypeError when [emit] is no function;
    when [emit] is a function that returns, the call goes on with the
    values that follow and this value has raised no error. *)
Theorem use_without_function C st this args :
  no_function args = true ->
  (flatten (drop (fst (use_offset_path args)) args) = []
   /\ use C this args st
      = (Throw (TypeError "app.use() requires a middleware function"), st))
  \/ (exists fn rest,
        flatten (drop (fst (use_offset_path args)) args) = fn :: rest
        /\ has_handle_and_set fn = false
        /\ use C this args st
           = (Throw (ContractViolation "Router.use() requires a middleware function"),
              exec (lazyrouter C this) st))
  \/ (exists fn rest,
        flatten (drop (fst (use_offset_path args)) args) = fn :: rest
        /\ has_handle_and_set fn = true
        /\ (is_Some (apps st !! this) ->
            layers_of this (object_mounted C this (snd (use_offset_path args)) fn st)
            = layers_of this (exec (lazyrouter C this) st)
              ++ [handler_layer (snd (use_offset_path args)) (MountedObj fn)])
        /\ (is_function (prop_of fn "emit") = false ->
            use C this args st
            = (Throw (TypeError "fn.emit is not a function"),
               object_mounted C this (snd (use_offset_path args)) fn st))
        /\ (is_function (prop_of fn "emit") = true ->
            forall e,
              object_emit C fn "mount" this
                (object_mounted C this (snd (use_offset_path args)) fn st) = Throw e ->
              use C this args st
              = (Throw e, object_mounted C this (snd (use_offset_path args)) fn st))
        /\ (is_function (prop_of fn "emit") = true ->
            object_emit C fn "mount" this
              (object_mounted C this (snd (use_offset_path args)) fn st) = Ok tt ->
            use C this args st
            = (forEach rest (use_each C this (snd (use_offset_path args))) ;;
               ret this)
                (object_mounted C this (snd (use_offset_path args)) fn st))).
Proof.
  intros Hn.
  destruct (flatten (drop (fst (use_offset_path args)) args)) as [|fn fns] eqn:Ef.
  - left. split; [reflexivity|]. apply use_requires_handler, Ef.
  - right.
    pose proof (no_function_drop (fst (use_offset_path args)) args Hn) as Hd.
    unfold no_function in Hd. rewrite Ef in Hd. simpl in Hd.
    apply andb_true_iff in Hd as [Hfn _].
    assert (Ha : as_app fn = None)
      by (destruct fn as [| | | | | | |f]; try reflexivity; discriminate).
    pose proof (use_first_value C this args fn fns st Ef) as Hu.
    unfold bind at 1 in Hu.
    destruct (duck_app fn) eqn:Ed.
    + right. exists fn, fns. split; [reflexivity|]. split; [exact Ed|].
      rewrite (use_each_duck C this _ fn _ Ha Ed) in Hu.
      fold (object_mounted C this (snd (use_offset_path args)) fn st) in Hu.
      split; [|split; [|split]].
      * intros Hthis. destruct (lazyrouter_router C this st Hthis) as [r Hr].
        unfold layers_of, object_mounted.
        rewrite (router_of_push _ _ _ _ Hr), Hr. reflexivity.
      * intros He. rewrite Hu, He. reflexivity.
      * intros He e Hemit. rewrite Hu, He, Hemit. reflexivity.
      * intros He Hemit. rewrite Hu, He, Hemit. reflexivity.
    + left. exists fn, fns. split; [reflexivity|]. split; [exact Ed|].
      rewrite Hu. unfold use_each. rewrite Ha, Ed.
      destruct fn as [| | | | | | |f]; try reflexivity. discriminate.
Qed.

Lemma use_without_function_witness :
  no_function [JStr "/p"; duck_object] = true
  /\ flatten (drop (fst (use_offset_path [JStr "/p"; duck_object]))
                [JStr "/p"; duck_object]) = [duck_object]
  /\ has_handle_and_set duck_object = true
  /\ is_function (prop_of duck_object "emit") = false
  /\ use example_config 0 [JStr "/p"; duck_object] one_app
     = (Throw (TypeError "fn.emit is not a function"),
        object_mounted example_config 0 (JStr "/p") duck_object one_app)
  /\ layers_of 0 (object_mounted example_config 0 (JStr "/p") duck_object one_app)
     = layers_of 0 (exec (lazyrouter example_config 0) one_app)
       ++ [handler_layer (JStr "/p") (MountedObj duck_object)].
Proof.
  split; [reflexivity|]. split; [reflexivity|]. split; [reflexivity|].
  split; [reflexivity|].
  destruct (use_without_function example_config one_app 0 [JStr "/p"; duck_object])
    as [[H _]|[(fn & rest & H & Hd & _)|(fn & rest & H & _ & Hl & He & _)]];
    [reflexivity|discriminate H| |].
  - exfalso. injection H as <- _. discriminate Hd.
  - injection H as <- _. split; [apply He; reflexivity|].
    apply Hl. vm_compute. eauto.
Defined.

(** C5, as stated, fails: the arguments "/p" and "x" hold no function,
    and the call, made on an application without router, leaves the
    application with a router of two Layers. *)
Lemma use_string_handler_creates_router :
  no_function [JStr "/p"; JStr "x"] = true
  /\ router_of 0 one_app = None
  /\ fst (use example_config 0 [JStr "/p"; JStr "x"] one_app)
     = Throw (ContractViolation "Router.use() requires a middleware function")
  /\ length (layers_of 0 (exec (use example_config 0 [JStr "/p"; JStr "x"]) one_app)) = 2
  /\ ~ (exists msg, use example_config 0 [JStr "/p"; JStr "x"] one_app
                    = (Throw (TypeError msg), one_app)).
Proof.
  split; [reflexivity|]. split; [reflexivity|].
  split; [vm_compute; reflexivity|]. split; [vm_compute; reflexivity|].
  intros [msg H]. apply (f_equal fst) in H. vm_compute in H. discriminate.
Qed.

(** An object with [handle], [set] and a function [emit] is registered
    without any error, though it is no function. *)
Lemma use_emitter_object_returns :
  no_function [JStr "/p"; emitter_object] = true
  /\ fst (use example_config 0 [JStr "/p"; emitter_object] one_app) = Ok 0
  /\ layers_of 0 (exec (use example_config 0 [JStr "/p"; emitter_object]) one_app)
     = layers_of 0 (exec (lazyrouter example_config 0) one_app)
       ++ [handler_layer (JStr "/p") (MountedObj emitter_object)].
Proof. split; [reflexivity|]. split; vm_compute; reflexivity. Qed.

(** *** The mount event and dispatch *)

(** The step of [forEach] that mounts an application. *)
Lemma use_each_mount C this c path st :
  emitted (exec (use_each C this path (JFun (AppFn c))) st)
  = emitted st ++ [(c, "mount", this)]
  /\ same_routing (exec (use_each C this path (JFun (AppFn c))) st)
                  (exec (use_each C this path (JFun (AppFn c))) (unheard_by c st)).
Proof.
  split.
  - rewrite use_each_app_exec, emitted_emit. reflexivity.
  - rewrite !use_each_app_exec.
    eapply same_routing_trans;
      [apply same_routing_sym, same_routing_emit|].
    eapply same_routing_trans; [|apply same_routing_emit].
    apply same_routing_upd_both.
    { intros x y H. unfold push_layer. rewrite H.
      destruct (_router y) eqn:E; simpl; congruence. }
    apply same_routing_upd_both; [intros x y H; exact H|].
    apply same_routing_upd_both; [intros x y H; exact H|].
    apply same_routing_upd. reflexivity.
Qed.

Lemma upd_app_comm a b f g st :
  (forall x, f (g x) = g (f x)) ->
  upd_app a f (upd_app b g st) = upd_app b g (upd_app a f st).
Proof.
  intros H. unfold upd_app. simpl. f_equal.
  destruct (decide (a = b)) as [->|Hne].
  - rewrite !list_alter_alter_eq. apply list_alter_ext; [|reflexivity].
    intros x _. apply H.
  - apply list_alter_alter_ne, Hne.
Qed.

(** A lookup of a setting reads the settings and their prototype
    links alone. *)
Lemma settings_lookup_upd fuel b f st :
  (forall x, settings (f x) = settings x) ->
  (forall x, settings_proto (f x) = settings_proto x) ->
  (forall x, settings_cut (f x) = settings_cut x) ->
  forall a k,
    settings_lookup fuel (upd_app b f st) a k = settings_lookup fuel st a k.
Proof.
  intros Hs Hp Hc. induction fuel as [|n IH]; intros a k; simpl;
    (destruct (decide (b = a)) as [->|Hne];
     [rewrite list_lookup_alter_eq|rewrite list_lookup_alter_ne by exact Hne]);
    destruct (apps st !! a) as [x|]; simpl; try reflexivity;
    rewrite ?Hs, ?Hp, ?Hc; destruct (settings x !! k); try reflexivity;
    destruct (settings_cut x); try reflexivity;
    destruct (settings_proto x); try reflexivity; apply IH.
Qed.

Lemma settings_get_upd b f st a k :
  (forall x, settings (f x) = settings x) ->
  (forall x, settings_proto (f x) = settings_proto x) ->
  (forall x, settings_cut (f x) = settings_cut x) ->
  settings_get a k (upd_app b f st) = settings_get a k st.
Proof.
  intros Hs Hp Hc. unfold settings_get.
  replace (length (apps (upd_app b f st))) with (length (apps st))
    by (unfold upd_app; simpl; rewrite length_alter; reflexivity).
  apply settings_lookup_upd; assumption.
Qed.

(** [lazyrouter] does the same with and without the listeners. *)
Lemma lazyrouter_unheard C this c st :
  exec (lazyrouter C this) (unheard_by c st)
  = unheard_by c (exec (lazyrouter C this) st).
Proof.
  unfold exec, unheard_by.
  assert (Hr : router_of this (upd_app c (with_listeners []) st) = router_of this st)
    by (apply router_of_upd_frame; reflexivity).
  destruct (router_of this st) as [r|] eqn:E.
  - erewrite !lazyrouter_existing by eassumption. reflexivity.
  - rewrite !lazyrouter_creates by assumption. simpl.
    rewrite (settings_get_upd this) by reflexivity.
    rewrite !(settings_get_upd c) by reflexivity.
    rewrite (settings_get_upd this) by reflexivity.
    assert (Hc : forall l x, push_layer l (with_listeners [] x)
                             = with_listeners [] (push_layer l x)).
    { intros l x. unfold push_layer. simpl. destruct (_router x); reflexivity. }
    rewrite (upd_app_comm c this (with_listeners [])) by (intros x; symmetry; apply Hc).
    rewrite (upd_app_comm c this (with_listeners [])) by (intros x; symmetry; apply Hc).
    rewrite (upd_app_comm c this (with_listeners [])) by reflexivity.
    reflexivity.
Qed.

Lemma lazyrouter_emitted C this st :
  emitted (exec (lazyrouter C this) st) = emitted st.
Proof.
  unfold exec. destruct (router_of this st) as [r|] eqn:E.
  - erewrite lazyrouter_existing by exact E. reflexivity.
  - rewrite lazyrouter_creates by exact E. reflexivity.
Qed.

(** [use(path, app)] is [lazyrouter] and one step of [forEach]. *)
Lemma use_mount_exec C this c path st :
  is_function (first_leaf path) = false ->
  exec (use C this [path; JFun (AppFn c)]) st
  = exec (use_each C this path (JFun (AppFn c))) (exec (lazyrouter C this) st).
Proof.
  intros Hp. unfold use.
  assert (Hop : use_offset_path [path; JFun (AppFn c)] = (1, path))
    by (rewrite use_offset_path_spec; simpl; rewrite Hp; reflexivity).
  rewrite Hop. cbn [drop flatten flatten_value Datatypes.app length Nat.eqb forEach].
  unfold exec, bind. pose proof (lazyrouter_ok C this st) as Hok.
  destruct (lazyrouter C this st) as [[[]|e] st1]; [|discriminate]. simpl.
  destruct (use_each C this path (JFun (AppFn c)) st1) as [[[]|e] st2]; reflexivity.
Qed.

(** An embedder whose code does the same in two stores with the same
    Routers and Routes has the same dispatch in them. *)
Lemma dispatch_same_routing (E : Embedder) st st' :
  same_routing st st' -> E st = E st' ->
  forall fuel a w cb, dispatch E st fuel a w cb = dispatch E st' fuel a w cb.
Proof.
  intros Hs HE fuel a w cb. unfold dispatch. rewrite HE.
  apply handle_same_routing, Hs.
Qed.

(** C7, as the code has it: [use(path, app)] emits the event
    "mount" on the application once, during the registration, and the
    notification leaves every Router and every Route as the same call
    leaves them when nobody listens.  The loop of the Routers reads
    nothing else: a dispatch differs from the one without listeners
    only where the code of the embedder itself differs, which reads
    the settings and the prototypes that the listener changes. *)
Theorem mount_event_keeps_routers C this c path st :
  is_function (first_leaf path) = false ->
  emitted (exec (use C this [path; JFun (AppFn c)]) st)
  = emitted st ++ [(c, "mount", this)]
  /\ same_routing (exec (use C this [path; JFun (AppFn c)]) st)
                  (exec (use C this [path; JFun (AppFn c)]) (unheard_by c st))
  /\ (forall E : Embedder,
        E (exec (use C this [path; JFun (AppFn c)]) st)
        = E (exec (use C this [path; JFun (AppFn c)]) (unheard_by c st)) ->
        forall fuel a w cb,
          dispatch E (exec (use C this [path; JFun (AppFn c)]) st) fuel a w cb
          = dispatch E (exec (use C this [path; JFun (AppFn c)]) (unheard_by c st))
              fuel a w cb).
Proof.
  intros Hp.
  assert (Hs : same_routing (exec (use C this [path; JFun (AppFn c)]) st)
                 (exec (use C this [path; JFun (AppFn c)]) (unheard_by c st))).
  { rewrite !use_mount_exec by exact Hp. rewrite lazyrouter_unheard.
    apply use_each_mount. }
  split; [|split].
  - rewrite use_mount_exec by exact Hp.
    rewrite (proj1 (use_each_mount C this c path _)), lazyrouter_emitted. reflexivity.
  - exact Hs.
  - intros E HE. apply dispatch_same_routing; assumption.
Qed.

Lemma mount_event_keeps_routers_witness :
  is_function (first_leaf (JStr "/c")) = false
  /\ emitted (exec (use example_config 0 [JStr "/c"; JFun (AppFn 1)]) two_apps)
     = emitted two_apps ++ [(1, "mount", 0)]
  /\ same_routing
       (exec (use example_config 0 [JStr "/c"; JFun (AppFn 1)]) two_apps)
       (exec (use example_config 0 [JStr "/c"; JFun (AppFn 1)]) (unheard_by 1 two_apps))
  /\ (forall fuel a w cb,
        dispatch (fun _ => example_runtime)
          (exec (use example_config 0 [JStr "/c"; JFun (AppFn 1)]) two_apps)
          fuel a w cb
        = dispatch (fun _ => example_runtime)
            (exec (use example_config 0 [JStr "/c"; JFun (AppFn 1)])
               (unheard_by 1 two_apps)) fuel a w cb).
Proof.
  split; [reflexivity|].
  destruct (mount_event_keeps_routers example_config 0 1 (JStr "/c") two_apps)
    as (H1 & H2 & H3); [reflexivity|].
  split; [exact H1|]. split; [exact H2|].
  apply (H3 (fun _ => example_runtime)). reflexivity.
Defined.

(** The listener changes what the code of the embedder reads: after the
    mount the application reads the trust function of its parent, and
    its request has the request of the parent for prototype; without
    the listener it reads its own, and its request is as it was. *)
Lemma mount_event_changes_settings :
  settings_get 1 "case sensitive routing"
       (exec (use example_config 0 [JStr "/c"; JFun (AppFn 1)]) two_apps)
     = JBool true
  /\ settings_get 1 "case sensitive routing"
       (exec (use example_config 0 [JStr "/c"; JFun (AppFn 1)])
          (unheard_by 1 two_apps))
     = JUndefined
  /\ (request_proto <$> apps (exec (use example_config 0 [JStr "/c"; JFun (AppFn 1)])
                               two_apps) !! 1) = Some (Some 0)
  /\ (request_proto <$> apps (exec (use example_config 0 [JStr "/c"; JFun (AppFn 1)])
                               (unheard_by 1 two_apps)) !! 1) = Some None.
Proof. repeat split; vm_compute; reflexivity. Qed.

(** C7, as stated, fails: an application that is mounted before
    its router exists takes the options of the router from the settings
    it inherits through the listener.  The request for "/c/foo" reaches
    the handler under "/Foo" when the event is not heard, and does not
    when it is. *)
Lemma mount_event_changes_dispatch :
  unheard = mount_then_register (unheard_by 1 two_apps)
  /\ heard = mount_then_register two_apps
  /\ (caseSensitive <$> router_of 1 heard) = Some true
  /\ (caseSensitive <$> router_of 1 unheard) = Some false
  /\ handle example_runtime heard 3 0 (get_request "/c/foo") (Some recording_done)
     <> handle example_runtime unheard 3 0 (get_request "/c/foo")
          (Some recording_done).
Proof.
  split; [reflexivity|]. split; [reflexivity|].
  split; [vm_compute; reflexivity|]. split; [vm_compute; reflexivity|].
  vm_compute. discriminate.
Qed.

(** *** [route] *)

Lemma find_route_Some rs p l r :
  find_route rs p l = Some r ->
  exists rt, rs !! r = Some rt /\ route_path rt = p.
Proof.
  unfold find_route. destruct (layer_handle l) as [|r']; [discriminate|].
  destruct (rs !! r') as [rt|] eqn:E; [|discriminate].
  destruct (String.eqb (route_path rt) p) eqn:Ep; [|discriminate].
  intros [= <-]. exists rt. split; [exact E|]. apply String.eqb_eq, Ep.
Qed.

Lemma lookup_route_Some rs p ls r :
  lookup_route rs p ls = Some r ->
  exists rt, rs !! r = Some rt /\ route_path rt = p.
Proof.
  induction ls as [|l rest IH]; simpl; [discriminate|].
  destruct (find_route rs p l) as [r'|] eqn:E.
  - intros [= <-]. eapply find_route_Some, E.
  - exact IH.
Qed.

(** A Route that has just been created is the one that is found. *)
Lemma lookup_route_created rs p ls path :
  lookup_route rs p ls = None ->
  lookup_route (rs ++ [mkRoute p []]) p
    (ls ++ [mkLayer path true (HRoute (length rs))]) = Some (length rs).
Proof.
  induction ls as [|l rest IH]; simpl.
  - intros _. unfold find_route. simpl.
    rewrite list_lookup_middle by reflexivity. simpl.
    rewrite String.eqb_refl. reflexivity.
  - destruct (find_route rs p l) as [r'|] eqn:E; [discriminate|].
    intros Hrest. specialize (IH Hrest).
    unfold find_route in *. destruct (layer_handle l) as [|r']; [exact IH|].
    destruct (decide (r' < length rs)) as [Hlt|Hge].
    + rewrite lookup_app_l by exact Hlt.
      destruct (rs !! r') as [rt|]; [|exact IH].
      destruct (String.eqb (route_path rt) p); [discriminate|exact IH].
    + destruct (decide (r' = length rs)) as [->|Hne].
      * rewrite list_lookup_middle by reflexivity. simpl.
        rewrite String.eqb_refl. reflexivity.
      * rewrite lookup_ge_None_2; [exact IH|]. rewrite length_app. simpl. lia.
Qed.

(** Handlers added to a Route do not change which Route is found. *)
Lemma lookup_route_alter rs p ls g r :
  (forall rt, route_path (g rt) = route_path rt) ->
  lookup_route (alter g r rs) p ls = lookup_route rs p ls.
Proof.
  intros Hg. induction ls as [|l rest IH]; simpl; [reflexivity|].
  assert (Hf : find_route (alter g r rs) p l = find_route rs p l).
  { unfold find_route. destruct (layer_handle l) as [|r']; [reflexivity|].
    destruct (decide (r = r')) as [->|Hne].
    - rewrite list_lookup_alter_eq. destruct (rs !! r') as [rt|]; simpl;
        [rewrite Hg|]; reflexivity.
    - rewrite list_lookup_alter_ne by exact Hne. reflexivity. }
  rewrite Hf, IH. reflexivity.
Qed.

Lemma router_route_found this p r st :
  lookup_route (routes st) p (layers_of this st) = Some r ->
  router_route this p st = (Ok r, st).
Proof. intros H. unfold router_route. fold (layers_of this st). rewrite H. reflexivity. Qed.

(** [route] on an application that has its router and the Route. *)
Lemma route_found C this p r rt0 st :
  router_of this st = Some rt0 ->
  lookup_route (routes st) p (layers_of this st) = Some r ->
  route C this p st = (Ok r, st).
Proof.
  intros Hr Hl. unfold route, bind. erewrite lazyrouter_existing by exact Hr.
  apply router_route_found, Hl.
Qed.

(** After [route] the Route it returned is the one registered for the
    path in the router of the application. *)
Lemma route_post C this p st :
  is_Some (apps st !! this) ->
  exists r st1 rt0,
    route C this p st = (Ok r, st1)
    /\ router_of this st1 = Some rt0
    /\ lookup_route (routes st1) p (layers_of this st1) = Some r.
Proof.
  intros Hthis. destruct (lazyrouter_router C this st Hthis) as [r0 Hr0].
  pose proof (lazyrouter_ok C this st) as Hok. unfold route, bind, exec in *.
  destruct (lazyrouter C this st) as [[[]|e] st0]; [|discriminate]. simpl in Hr0.
  unfold router_route. fold (layers_of this st0).
  destruct (lookup_route (routes st0) p (layers_of this st0)) as [r|] eqn:El.
  - exists r, st0, r0. auto.
  - eexists _, _, _. split; [reflexivity|].
    assert (Hr1 : router_of this
              (upd_app this
                 (push_layer (mkLayer (JStr p) true (HRoute (length (routes st0)))))
                 (mkStore (apps st0) (routes st0 ++ [mkRoute p []]) (emitted st0)))
            = Some (mkRouter
                      (stack r0 ++ [mkLayer (JStr p) true (HRoute (length (routes st0)))])
                      (caseSensitive r0) (strict r0)))
      by (apply router_of_push; exact Hr0).
    split; [exact Hr1|].
    unfold layers_of in *. rewrite Hr1. rewrite Hr0 in El. simpl in *.
    apply lookup_route_created, El.
Qed.

Lemma route_verb_one r m f st :
  route_verb r m [JFun f] st
  = (Ok tt, mkStore (apps st) (alter (add_handler m f) r (routes st)) (emitted st)).
Proof. reflexivity. Qed.

(** C6: on an application of the store, [route(p)] called twice
    returns the same Route, the second call changing nothing; and two
    handlers registered for a method, each through a call of its own,
    stand one behind the other on the stack of that one Route. *)
Theorem route_idempotent C st this p :
  is_Some (apps st !! this) ->
  exists r st1 rt,
    route C this p st = (Ok r, st1)
    /\ route C this p st1 = (Ok r, st1)
    /\ routes st1 !! r = Some rt /\ route_path rt = p
    /\ forall m f g,
         exists st2,
           (r1 <- route C this p ;; route_verb r1 m [JFun f] ;;
            r2 <- route C this p ;; route_verb r2 m [JFun g] ;;
            ret (r1, r2)) st = (Ok (r, r), st2)
           /\ routes st2 !! r
              = Some (mkRoute p (route_stack rt ++ [(m, f); (m, g)])).
Proof.
  intros Hthis.
  destruct (route_post C this p st Hthis) as (r & st1 & rt0 & H1 & Hr & Hl).
  destruct (lookup_route_Some _ _ _ _ Hl) as (rt & Hrt & Hp).
  exists r, st1, rt. split; [exact H1|]. split.
  { eapply route_found; [exact Hr|exact Hl]. }
  split; [exact Hrt|]. split; [exact Hp|].
  intros m f g. eexists.
  unfold bind at 1. rewrite H1. unfold bind at 1. rewrite route_verb_one.
  set (st1' := mkStore (apps st1) (alter (add_handler m f) r (routes st1)) (emitted st1)).
  assert (H2 : route C this p st1' = (Ok r, st1')).
  { eapply route_found.
    - unfold router_of, st1'. simpl. exact Hr.
    - unfold layers_of, router_of, st1'. simpl.
      rewrite lookup_route_alter by reflexivity. exact Hl. }
  unfold bind at 1. rewrite H2. unfold bind at 1. rewrite route_verb_one.
  split; [reflexivity|].
  simpl. rewrite list_lookup_alter_eq, list_lookup_alter_eq, Hrt. simpl.
  unfold add_handler. simpl. rewrite Hp, <- app_assoc. reflexivity.
Qed.

Lemma route_idempotent_witness :
  is_Some (apps one_app !! 0)
  /\ exists r st1 rt,
       route example_config 0 "/x" one_app = (Ok r, st1)
       /\ route example_config 0 "/x" st1 = (Ok r, st1)
       /\ routes st1 !! r = Some rt /\ route_path rt = "/x"
       /\ forall m f g,
            exists st2,
              (r1 <- route example_config 0 "/x" ;; route_verb r1 m [JFun f] ;;
               r2 <- route example_config 0 "/x" ;; route_verb r2 m [JFun g] ;;
               ret (r1, r2)) one_app = (Ok (r, r), st2)
              /\ routes st2 !! r
                 = Some (mkRoute "/x" (route_stack rt ++ [(m, f); (m, g)])).
Proof.
  split; [vm_compute; eauto|].
  apply (route_idempotent example_config one_app 0 "/x").
  vm_compute. eauto.
Defined.

End RegistrationFacts.

(** ** The getters of the request *)

Module RequestRestFacts.

Import Request RequestRest.

(** *** Strings *)

Lemma lower_ascii_idem c : lower_ascii (lower_ascii c) = lower_ascii c.
Proof.
  destruct c as [[] [] [] [] [] [] [] []]; reflexivity.
Qed.

Lemma toLowerCase_idem s : toLowerCase (toLowerCase s) = toLowerCase s.
Proof.
  induction s as [|c r IH]; simpl; [reflexivity|].
  rewrite lower_ascii_idem, IH. reflexivity.
Qed.

Lemma toLowerCase_empty s : String.eqb (toLowerCase s) "" = String.eqb s "".
Proof. destruct s; reflexivity. Qed.

Lemma index_of_take c s i :
  index_of c s = Some i -> index_of c (take_str i s) = None.
Proof.
  revert i. induction s as [|a r IH]; intros i; simpl; [discriminate|].
  destruct (Ascii.eqb a c) eqn:E.
  - intros [= <-]. reflexivity.
  - destruct (index_of c r) as [j|]; [|discriminate].
    intros [= <-]. simpl. rewrite E, (IH j eq_refl). reflexivity.
Qed.

(** The text before the first [c] is the first piece of the split. *)
Lemma split_nonempty c s : split c s <> [].
Proof.
  destruct s as [|a r]; simpl; [discriminate|].
  destruct (Ascii.eqb a c); [discriminate|].
  destruct (split c r); discriminate.
Qed.

Lemma hd_split_take c s i :
  index_of c s = Some i -> hd EmptyString (split c s) = take_str i s.
Proof.
  revert i. induction s as [|a r IH]; intros i; simpl; [discriminate|].
  destruct (Ascii.eqb a c) eqn:E.
  - intros [= <-]. reflexivity.
  - destruct (index_of c r) as [j|] eqn:Ej; [|discriminate].
    intros [= <-]. simpl. specialize (IH j eq_refl).
    destruct (split c r) as [|x xs] eqn:Es; [destruct (split_nonempty c r Es)|].
    simpl in *. rewrite IH. reflexivity.
Qed.

Lemma hd_split_none c s :
  index_of c s = None -> hd EmptyString (split c s) = s.
Proof.
  induction s as [|a r IH]; simpl; [reflexivity|].
  destruct (Ascii.eqb a c) eqn:E; [discriminate|].
  destruct (index_of c r) as [j|] eqn:Ej; [discriminate|]. intros _.
  specialize (IH eq_refl).
  destruct (split c r) as [|x xs] eqn:Es; [destruct (split_nonempty c r Es)|].
  simpl in *. rewrite IH. reflexivity.
Qed.

(** No piece of a split holds the separator. *)
Lemma split_pieces c s : Forall (fun x => index_of c x = None) (split c s).
Proof.
  induction s as [|a r IH]; simpl.
  - constructor; [reflexivity|constructor].
  - destruct (Ascii.eqb a c) eqn:E.
    + constructor; [reflexivity|exact IH].
    + destruct (split c r) as [|x xs] eqn:Es; [destruct (split_nonempty c r Es)|].
      inversion IH as [|? ? Hx Hxs]; subst. constructor; [|exact Hxs].
      simpl. rewrite E, Hx. reflexivity.
Qed.

Lemma join_split c s : join c (split c s) = s.
Proof.
  induction s as [|a r IH]; simpl; [reflexivity|].
  destruct (Ascii.eqb a c) eqn:E.
  - apply Ascii.eqb_eq in E. subst a.
    destruct (split c r) as [|x xs] eqn:Es; [destruct (split_nonempty c r Es)|].
    simpl in *. rewrite IH. reflexivity.
  - destruct (split c r) as [|x xs] eqn:Es; [destruct (split_nonempty c r Es)|].
    destruct xs as [|y ys]; simpl in *; rewrite <- IH; reflexivity.
Qed.

Lemma append_nil_l t : String.append EmptyString t = t.
Proof. reflexivity. Qed.

Lemma append_cons a r t :
  String.append (String a r) t = String a (String.append r t).
Proof. reflexivity. Qed.

Lemma index_of_app_none c s t :
  index_of c s = None ->
  index_of c (String.append s t) = (fun i => String.length s + i) <$> index_of c t.
Proof.
  induction s as [|a r IH].
  - intros _. rewrite append_nil_l. destruct (index_of c t); reflexivity.
  - rewrite append_cons. simpl. destruct (Ascii.eqb a c); [discriminate|].
    destruct (index_of c r) as [j|]; [discriminate|]. intros _.
    rewrite (IH eq_refl). destruct (index_of c t); reflexivity.
Qed.

Lemma drop_str_app s t : drop_str (String.length s) (String.append s t) = t.
Proof.
  induction s as [|a r IH].
  - rewrite append_nil_l. destruct t; reflexivity.
  - rewrite append_cons. exact IH.
Qed.

Lemma take_str_app s t n :
  take_str (String.length s + n) (String.append s t)
  = String.append s (take_str n t).
Proof.
  induction s as [|a r IH].
  - rewrite !append_nil_l. reflexivity.
  - rewrite !append_cons. simpl. rewrite IH. reflexivity.
Qed.

(** *** [req.get] *)

(** X1: [req.get] takes the name without regard to case: two names
    with the same lower-case form give the same result, a header or a
    thrown TypeError alike. *)
Theorem header_name_case_insensitive (this : request) (s1 s2 : string) :
  toLowerCase s1 = toLowerCase s2 ->
  header this (JStr s1) = header this (JStr s2).
Proof.
  intros H. unfold header. simpl.
  rewrite <- (toLowerCase_empty s1), <- (toLowerCase_empty s2), H.
  reflexivity.
Qed.

Lemma header_name_case_insensitive_witness :
  toLowerCase "Content-Type" = toLowerCase "content-TYPE"
  /\ header referer_request (JStr "Content-Type")
     = header referer_request (JStr "content-TYPE").
Proof.
  split; [reflexivity|].
  apply (header_name_case_insensitive referer_request "Content-Type" "content-TYPE").
  reflexivity.
Defined.

Lemma header_lower (this : request) (k : string) :
  k <> "" -> k <> "referer" -> k <> "referrer" -> toLowerCase k = k ->
  header this (JStr k) = Ok (get_prop (req_headers this) k).
Proof.
  intros Hk H1 H2 Hl. unfold header. simpl. rewrite Hl.
  apply String.eqb_neq in Hk, H1, H2. rewrite Hk, H1, H2. reflexivity.
Qed.

(** *** The getters *)

Section GetterFacts.

Variable trim : string -> string.
Variable isIP : string -> bool.

Lemma header_of_with_header k v this key :
  key <> "" -> key <> "referer" -> key <> "referrer" -> toLowerCase key = key ->
  k <> key ->
  header (with_header k v this) (JStr key) = header this (JStr key).
Proof.
  intros H0 H1 H2 Hl Hk. rewrite !header_lower by assumption.
  unfold with_header, get_prop. simpl.
  rewrite lookup_insert_ne by exact Hk. reflexivity.
Qed.

(** X2: from a socket that is not trusted the forwarded headers
    count for nothing: the protocol is that of the connection and
    [secure] says whether it is encrypted, whatever header is added,
    and the host name does not change with X-Forwarded-Host. *)
Theorem untrusted_ignores_forwarded (this : request) (encrypted : bool)
  (k : string) (v : jsval) :
  protocol trim (with_header k v this) encrypted false
  = Ok (JStr (if encrypted then "https" else "http"))
  /\ secure trim (with_header k v this) encrypted false = Ok encrypted
  /\ hostname (with_header "x-forwarded-host" v this) false = hostname this false.
Proof.
  split; [reflexivity|]. split; [destruct encrypted; reflexivity|].
  unfold hostname.
  change (header (with_header "x-forwarded-host" v this) (JStr "X-Forwarded-Host"))
    with (Ok (get_prop (req_headers (with_header "x-forwarded-host" v this))
                "x-forwarded-host")).
  change (header this (JStr "X-Forwarded-Host"))
    with (Ok (get_prop (req_headers this) "x-forwarded-host")).
  cbv beta iota. rewrite !orb_true_r.
  change (header (with_header "x-forwarded-host" v this) (JStr "Host"))
    with (header (with_header "x-forwarded-host" v this) (JStr "host")).
  change (header this (JStr "Host")) with (header this (JStr "host")).
  rewrite header_of_with_header by (discriminate || reflexivity). reflexivity.
Qed.

(** X3: the protocol is read from the header "x-forwared-proto" and
    from no other: a header under any other name, "x-forwarded-proto"
    among them, leaves it as it is. *)
Theorem protocol_reads_one_header (this : request) (encrypted trusted : bool)
  (k : string) (v : jsval) :
  k <> "x-forwared-proto" ->
  protocol trim (with_header k v this) encrypted trusted
  = protocol trim this encrypted trusted.
Proof.
  intros Hk. unfold protocol. destruct trusted; [|reflexivity]. cbv beta iota zeta.
  change (header (with_header k v this) (JStr "X-Forwared-Proto"))
    with (header (with_header k v this) (JStr "x-forwared-proto")).
  change (header this (JStr "X-Forwared-Proto"))
    with (header this (JStr "x-forwared-proto")).
  rewrite header_of_with_header by (discriminate || reflexivity || exact Hk).
  reflexivity.
Qed.

(** X4: from a trusted socket, with a header "x-forwared-proto"
    that is a string, the protocol is the first entry of the
    comma-separated list, trimmed. *)
Theorem protocol_first_entry (this : request) (encrypted : bool) (h : string) :
  get_prop (req_headers this) "x-forwared-proto" = JStr h ->
  h <> "" ->
  protocol trim this encrypted true
  = Ok (JStr (trim (hd EmptyString (split ","%char h)))).
Proof.
  intros Hh Hne. unfold protocol. cbv beta iota zeta.
  change (header this (JStr "X-Forwared-Proto"))
    with (Ok (get_prop (req_headers this) "x-forwared-proto")).
  rewrite Hh. unfold js_or. simpl truthy.
  apply String.eqb_neq in Hne. rewrite Hne. simpl negb. cbv iota.
  destruct (index_of ","%char h) as [i|] eqn:Ei.
  - rewrite (hd_split_take _ _ _ Ei). reflexivity.
  - rewrite (hd_split_none _ _ Ei). reflexivity.
Qed.

Lemma hostname_of_host (this : request) (trusted : bool) (h : string) :
  reads_host this trusted h -> h <> "" ->
  hostname this trusted
  = match index_from ":"%char
            match h with
            | String "["%char _ =>
                match index_of "]"%char h with Some i => i + 1 | None => 0 end
            | _ => 0
            end h with
    | Some index => Ok (JStr (take_str index h))
    | None => Ok (JStr h)
    end.
Proof.
  intros Hh Hne. unfold reads_host in Hh. unfold hostname.
  change (header this (JStr "X-Forwarded-Host"))
    with (Ok (get_prop (req_headers this) "x-forwarded-host")).
  cbv beta iota.
  change (header this (JStr "Host")) with (Ok (get_prop (req_headers this) "host")).
  apply String.eqb_neq in Hne.
  destruct trusted,
    (truthy (get_prop (req_headers this) "x-forwarded-host")) eqn:Et;
    simpl in Hh |- *; rewrite Hh; simpl truthy; rewrite Hne; reflexivity.
Qed.

Lemma index_from_0 c s : index_from c 0 s = index_of c s.
Proof.
  unfold index_from. replace (drop_str 0 s) with s by (destruct s; reflexivity).
  destruct (index_of c s); reflexivity.
Qed.

(** X5: the host name comes from the header X-Forwarded-Host when the
    socket is trusted and the header has a value, and from the header
    Host otherwise.  A value of that header that does not begin with a
    bracket gives the text before its first colon as the host name:
    the port is cut off and no colon is left. *)
Theorem hostname_strips_port (this : request) (trusted : bool) (h : string) :
  reads_host this trusted h ->
  h <> "" ->
  (forall r, h <> String "["%char r) ->
  hostname this trusted = Ok (JStr (hd EmptyString (split ":"%char h)))
  /\ index_of ":"%char (hd EmptyString (split ":"%char h)) = None.
Proof.
  intros Hh Hne Hb. split.
  - rewrite (hostname_of_host this trusted h Hh Hne).
    assert (Ho : match h with
                 | String "["%char _ =>
                     match index_of "]"%char h with Some i => i + 1 | None => 0 end
                 | _ => 0
                 end = 0).
    { destruct h as [|a r]; [reflexivity|].
      destruct (Ascii.eqb a "["%char) eqn:E.
      - apply Ascii.eqb_eq in E. subst a. destruct (Hb r eq_refl).
      - destruct a as [[] [] [] [] [] [] [] []]; try reflexivity; discriminate. }
    rewrite Ho, index_from_0.
    destruct (index_of ":"%char h) as [i|] eqn:Ei.
    + rewrite (hd_split_take _ _ _ Ei). reflexivity.
    + rewrite (hd_split_none _ _ Ei). reflexivity.
  - pose proof (split_pieces ":"%char h) as Hp.
    destruct (split ":"%char h) as [|x xs]; [reflexivity|].
    inversion Hp; assumption.
Qed.

Lemma index_of_app_some c s t i :
  index_of c s = Some i -> index_of c (String.append s t) = Some i.
Proof.
  revert i. induction s as [|a r IH]; intros i; [discriminate|].
  rewrite append_cons. simpl. destruct (Ascii.eqb a c); [trivial|].
  destruct (index_of c r) as [j|]; [|discriminate].
  intros [= <-]. rewrite (IH j eq_refl). reflexivity.
Qed.

Lemma length_append_str s t :
  String.length (String.append s t) = String.length s + String.length t.
Proof.
  induction s as [|a r IH]; [reflexivity|].
  rewrite append_cons. simpl. rewrite IH. reflexivity.
Qed.

Lemma index_of_bracketed a :
  index_of "]"%char a = None ->
  index_of "]"%char (bracketed a) = Some (String.length (bracketed a) - 1).
Proof.
  intros Ha. unfold bracketed. simpl.
  rewrite (index_of_app_none _ _ _ Ha). simpl.
  rewrite length_append_str. simpl. f_equal. lia.
Qed.

(** X6: a value of the header that [hostname] works on,
    X-Forwarded-Host from a trusted socket when it has a value and
    Host otherwise, that begins with an IPv6 literal in brackets keeps
    the literal whole, colons and all, and loses the port behind it
    alone. *)
Theorem hostname_keeps_ipv6_literal (this : request) (trusted : bool)
  (a rest : string) :
  reads_host this trusted (String.append (bracketed a) rest) ->
  index_of "]"%char a = None ->
  hostname this trusted
  = Ok (JStr (String.append (bracketed a) (hd EmptyString (split ":"%char rest)))).
Proof.
  intros Hh Ha.
  rewrite (hostname_of_host this trusted _ Hh) by (unfold bracketed; discriminate).
  pose proof (index_of_bracketed a Ha) as Hb.
  assert (Hlen : String.length (bracketed a) - 1 + 1 = String.length (bracketed a))
    by (unfold bracketed; simpl; lia).
  replace (match String.append (bracketed a) rest with
           | String "["%char _ =>
               match index_of "]"%char (String.append (bracketed a) rest) with
               | Some i => i + 1
               | None => 0
               end
           | _ => 0
           end) with (String.length (bracketed a)).
  2:{ rewrite (index_of_app_some _ _ rest _ Hb), Hlen. reflexivity. }
  unfold index_from. rewrite drop_str_app.
  destruct (index_of ":"%char rest) as [i|] eqn:Ei; simpl.
  - rewrite take_str_app, (hd_split_take _ _ _ Ei). reflexivity.
  - rewrite (hd_split_none _ _ Ei). reflexivity.
Qed.

(** X7: for a host name that is no IP address the subdomains are the
    labels between the dots without the last [offset] of them, listed
    from right to left; the labels hold no dot, and joined by dots
    they are the host name again. *)
Theorem subdomains_labels (this : request) (trusted : bool) (r : string)
  (offset : Z) :
  hostname this trusted = Ok (JStr r) ->
  r <> "" ->
  isIP r = false ->
  (0 <= offset)%Z ->
  subdomains isIP this trusted offset
  = Ok (map JStr
          (rev (take (length (split "."%char r) - Z.to_nat offset)
                     (split "."%char r))))
  /\ join "."%char (split "."%char r) = r
  /\ Forall (fun x => index_of "."%char x = None) (split "."%char r).
Proof.
  intros Hh Hne Hip Hz. split; [|split; [apply join_split|apply split_pieces]].
  unfold subdomains. rewrite Hh. simpl truthy.
  apply String.eqb_neq in Hne. rewrite Hne, Hip. simpl negb. cbv iota.
  unfold slice_from. destruct (Z.ltb_spec offset 0) as [Hlt|_]; [lia|].
  rewrite skipn_rev, length_map, firstn_map, <- map_rev. reflexivity.
Qed.

(** X8: a host name that is an IP address has itself as its one
    subdomain entry, which every offset of one or more drops. *)
Theorem subdomains_of_ip (this : request) (trusted : bool) (r : string)
  (offset : Z) :
  hostname this trusted = Ok (JStr r) ->
  r <> "" ->
  isIP r = true ->
  (1 <= offset)%Z ->
  subdomains isIP this trusted offset = Ok []
  /\ subdomains isIP this trusted 0 = Ok [JStr r].
Proof.
  intros Hh Hne Hip Hz. unfold subdomains. rewrite Hh. simpl truthy.
  apply String.eqb_neq in Hne. rewrite Hne, Hip. simpl negb. cbv iota.
  split; [|reflexivity].
  unfold slice_from. destruct (Z.ltb_spec offset 0) as [Hlt|_]; [lia|].
  destruct (Z.to_nat offset) as [|n] eqn:En; [lia|]. simpl. destruct n; reflexivity.
Qed.

End GetterFacts.

Lemma protocol_reads_one_header_witness :
  "x-forwarded-proto" <> "x-forwared-proto"
  /\ protocol ascii_trim
       (with_header "x-forwarded-proto" (JStr "https") subdomain_request) false true
     = protocol ascii_trim subdomain_request false true.
Proof.
  split; [discriminate|].
  apply (protocol_reads_one_header ascii_trim subdomain_request false true
           "x-forwarded-proto" (JStr "https")).
  discriminate.
Defined.

Lemma protocol_first_entry_witness :
  get_prop (req_headers proxied_request) "x-forwared-proto" = JStr "https , http"
  /\ "https , http" <> ""
  /\ protocol ascii_trim proxied_request false true
     = Ok (JStr (ascii_trim (hd EmptyString (split ","%char "https , http")))).
Proof.
  split; [reflexivity|]. split; [discriminate|].
  apply (protocol_first_entry ascii_trim proxied_request false "https , http");
    [reflexivity|discriminate].
Defined.

Lemma hostname_strips_port_witness :
  reads_host forwarded_request true "proxy.example:8080"
  /\ "proxy.example:8080" <> ""
  /\ (forall r, "proxy.example:8080" <> String "["%char r)
  /\ hostname forwarded_request true = Ok (JStr "proxy.example")
  /\ index_of ":"%char "proxy.example" = None.
Proof.
  split; [reflexivity|]. split; [discriminate|]. split; [discriminate|].
  apply (hostname_strips_port forwarded_request true "proxy.example:8080");
    [reflexivity|discriminate|discriminate].
Defined.

Lemma hostname_keeps_ipv6_literal_witness :
  reads_host ipv6_request true (String.append (bracketed "::1") ":3000")
  /\ index_of "]"%char "::1" = None
  /\ hostname ipv6_request true = Ok (JStr "[::1]").
Proof.
  split; [reflexivity|]. split; [reflexivity|].
  apply (hostname_keeps_ipv6_literal ipv6_request true "::1" ":3000"); reflexivity.
Defined.

Lemma subdomains_labels_witness :
  hostname subdomain_request false = Ok (JStr "tobi.ferrets.example.com")
  /\ "tobi.ferrets.example.com" <> ""
  /\ dotted_quad "tobi.ferrets.example.com" = false
  /\ (0 <= 2)%Z
  /\ subdomains dotted_quad subdomain_request false 2
     = Ok (map JStr
             (rev (take (length (split "."%char "tobi.ferrets.example.com")
                         - Z.to_nat 2)
                        (split "."%char "tobi.ferrets.example.com"))))
  /\ join "."%char (split "."%char "tobi.ferrets.example.com")
     = "tobi.ferrets.example.com"
  /\ Forall (fun x => index_of "."%char x = None)
            (split "."%char "tobi.ferrets.example.com").
Proof.
  split; [reflexivity|]. split; [discriminate|]. split; [reflexivity|].
  split; [lia|].
  apply (subdomains_labels dotted_quad subdomain_request false
           "tobi.ferrets.example.com" 2); [reflexivity|discriminate|reflexivity|lia].
Defined.

Lemma subdomains_of_ip_witness :
  hostname ip_request false = Ok (JStr "10.0.0.1")
  /\ "10.0.0.1" <> ""
  /\ dotted_quad "10.0.0.1" = true
  /\ (1 <= 2)%Z
  /\ subdomains dotted_quad ip_request false 2 = Ok []
  /\ subdomains dotted_quad ip_request false 0 = Ok [JStr "10.0.0.1"].
Proof.
  split; [reflexivity|]. split; [discriminate|]. split; [reflexivity|].
  split; [lia|].
  apply (subdomains_of_ip dotted_quad ip_request false "10.0.0.1" 2);
    [reflexivity|discriminate|reflexivity|lia].
Defined.

(** X9: [req.param] reads the body through its prototype chain: on a
    request whose parameters have the method of [Object.prototype]
    under the name [hasOwnProperty], a name for which the parameters
    have no value of their own and which the body, an empty object when
    it is missing, inherits with a value is answered with the inherited
    value, whatever the query string and the default. *)
Theorem param_reads_inherited (Object_prototype : gmap string jsval)
  (call_method : func -> js_object -> string -> result jsval)
  (this : request) (n : string) (v d : jsval) :
  standard_hasOwnProperty Object_prototype (req_params this) ->
  own_value (req_params this) n = None ->
  inherits Object_prototype (req_body this) n v ->
  not_nullish v = true ->
  param Object_prototype call_method this n d = Ok v.
Proof.
  intros Hstd Hp Hi Hv. unfold param.
  rewrite (RequestFacts.call_hasOwnProperty_standard _ call_method _ n Hstd).
  rewrite (RequestFacts.own_value_spec Object_prototype) in Hp.
  assert (Hb : get_prop (or_empty Object_prototype (req_body this)) n = v).
  { unfold inherits in Hi. unfold get_prop.
    destruct (req_body this) as [o|]; simpl.
    - destruct Hi as [Ho Hin]. rewrite Ho, Hin. reflexivity.
    - rewrite lookup_empty, Hi. reflexivity. }
  rewrite Hb, Hv.
  destruct (not_nullish (get_prop (or_empty Object_prototype (req_params this)) n));
    simpl in *.
  - destruct (hasOwnProperty (or_empty Object_prototype (req_params this)) n);
      [discriminate|reflexivity].
  - reflexivity.
Qed.

Lemma param_reads_inherited_witness :
  standard_hasOwnProperty small_Object_prototype (req_params referer_request)
  /\ own_value (req_params referer_request) "toString" = None
  /\ inherits small_Object_prototype (req_body referer_request) "toString"
       (JFun (ExternFn "Object.prototype.toString"))
  /\ not_nullish (JFun (ExternFn "Object.prototype.toString")) = true
  /\ param small_Object_prototype no_method referer_request "toString"
       (JStr "fallback")
     = Ok (JFun (ExternFn "Object.prototype.toString")).
Proof.
  split; [reflexivity|]. split; [reflexivity|]. split; [reflexivity|].
  split; [reflexivity|].
  apply (param_reads_inherited small_Object_prototype no_method referer_request
           "toString" (JFun (ExternFn "Object.prototype.toString"))
           (JStr "fallback"));
    reflexivity.
Defined.

(** X10: [ips] drops the first of the addresses, the one of the
    socket, and lists the others in reverse order. *)
Theorem ips_reverse_tail (addrs : list jsval) :
  ips addrs = rev (tl addrs) /\ length (ips addrs) = length addrs - 1.
Proof.
  assert (H : ips addrs = rev (tl addrs)).
  { unfold ips. destruct addrs as [|a l]; [reflexivity|].
    simpl. apply removelast_last. }
  split; [exact H|]. rewrite H, length_rev. destruct addrs; simpl; lia.
Qed.

End RequestRestFacts.

(** ** Settings, engines and the mount path *)

Module ApplicationRestFacts.

Import Application ApplicationRest DispatchFacts RegistrationFacts.
Local Open Scope js_scope.

(** *** The store under [set] *)

Lemma lookup_upd_app a b f st :
  apps (upd_app b f st) !! a
  = if decide (b = a) then f <$> apps st !! a else apps st !! a.
Proof.
  unfold upd_app. simpl. destruct (decide (b = a)) as [->|Hne].
  - apply list_lookup_alter_eq.
  - apply list_lookup_alter_ne, Hne.
Qed.

Lemma settings_get_own a k x v st :
  apps st !! a = Some x -> settings x !! k = Some v -> settings_get a k st = v.
Proof.
  intros Ha Hk. unfold settings_get.
  destruct (length (apps st)); simpl; rewrite Ha, Hk; reflexivity.
Qed.

(** A lookup of the setting [k] reads the properties [k] and the
    prototype links alone. *)
Lemma settings_lookup_upd_key fuel b f st k :
  (forall x, settings (f x) !! k = settings x !! k) ->
  (forall x, settings_proto (f x) = settings_proto x) ->
  (forall x, settings_cut (f x) = settings_cut x) ->
  forall a, settings_lookup fuel (upd_app b f st) a k = settings_lookup fuel st a k.
Proof.
  intros Hs Hp Hc. induction fuel as [|n IH]; intros a; cbn [settings_lookup];
    rewrite lookup_upd_app;
    (destruct (decide (b = a)) as [->|Hne]);
    destruct (apps st !! a) as [x|]; simpl; try reflexivity;
    rewrite ?Hs, ?Hp, ?Hc; destruct (settings x !! k); try reflexivity;
    destruct (settings_cut x); try reflexivity;
    destruct (settings_proto x); try reflexivity; apply IH.
Qed.

Lemma settings_get_upd_key b f st a k :
  (forall x, settings (f x) !! k = settings x !! k) ->
  (forall x, settings_proto (f x) = settings_proto x) ->
  (forall x, settings_cut (f x) = settings_cut x) ->
  settings_get a k (upd_app b f st) = settings_get a k st.
Proof.
  intros Hs Hp Hc. unfold settings_get.
  replace (length (apps (upd_app b f st))) with (length (apps st))
    by (unfold upd_app; simpl; rewrite length_alter; reflexivity).
  apply settings_lookup_upd_key; assumption.
Qed.

Lemma upd_app_twice a f g st :
  upd_app a f (upd_app a g st) = upd_app a (fun x => f (g x)) st.
Proof. unfold upd_app. simpl. rewrite list_alter_alter_eq. reflexivity. Qed.

Lemma upd_app_ext a f g st : (forall x, f x = g x) -> upd_app a f st = upd_app a g st.
Proof.
  intros H. unfold upd_app. f_equal. apply list_alter_ext; [|reflexivity].
  intros x _. apply H.
Qed.

Lemma upd_app_id a f st : (forall x, f x = x) -> upd_app a f st = st.
Proof.
  intros H. unfold upd_app. rewrite list_alter_id by exact H.
  destruct st; reflexivity.
Qed.

(** The assignment of a setting that is not [__proto__] and not the
    mark of the default sets the own property. *)
Lemma assign_setting_plain this k v st :
  k <> "__proto__" -> k <> trustProxyDefaultSymbol ->
  assign_setting this k v st
  = (Ok tt, upd_app this (fun a => with_settings (<[k := v]> (settings a)) a) st).
Proof.
  intros H1 H2. apply String.eqb_neq in H1, H2.
  unfold assign_setting. rewrite H1, H2. reflexivity.
Qed.

(** What [set(setting, val)] does to the store: the settings of the
    application get the value and what is compiled from it. *)
Lemma set_exec C this k v st :
  k <> "__proto__" -> k <> trustProxyDefaultSymbol ->
  set C this k (Some v) st
  = (Ok (JFun (AppFn this)), upd_app this (after_set C k v) st).
Proof.
  intros H1 H2. unfold set, bind. rewrite (assign_setting_plain _ _ _ _ H1 H2).
  unfold after_set, settings_after_set.
  destruct (String.eqb k "etag") eqn:E1.
  { apply String.eqb_eq in E1. subst k.
    replace (String.eqb "etag" "trust proxy") with false by reflexivity.
    rewrite assign_setting_plain by discriminate. unfold ret.
    rewrite upd_app_twice. reflexivity. }
  destruct (String.eqb k "query parser") eqn:E2.
  { apply String.eqb_eq in E2. subst k.
    replace (String.eqb "query parser" "trust proxy") with false by reflexivity.
    rewrite assign_setting_plain by discriminate. unfold ret.
    rewrite upd_app_twice. reflexivity. }
  destruct (String.eqb k "trust proxy") eqn:E3; [|reflexivity].
  apply String.eqb_eq in E3. subst k.
  unfold bind. rewrite assign_setting_plain by discriminate.
  unfold modify, ret. rewrite !upd_app_twice. f_equal.
  apply upd_app_ext. intros x. unfold define_mark. simpl.
  rewrite !lookup_insert_ne by discriminate. reflexivity.
Qed.

Lemma settings_after_set_same C k v m : settings_after_set C k v m !! k = Some v.
Proof.
  unfold settings_after_set.
  destruct (String.eqb k "etag") eqn:E1.
  { apply String.eqb_eq in E1. subst k.
    rewrite lookup_insert_ne by discriminate. apply lookup_insert_eq. }
  destruct (String.eqb k "query parser") eqn:E2.
  { apply String.eqb_eq in E2. subst k.
    rewrite lookup_insert_ne by discriminate. apply lookup_insert_eq. }
  destruct (String.eqb k "trust proxy") eqn:E3.
  { apply String.eqb_eq in E3. subst k.
    rewrite !lookup_insert_ne by discriminate. apply lookup_insert_eq. }
  apply lookup_insert_eq.
Qed.

Lemma settings_after_set_other C k v m k' :
  k' <> k -> k' <> "etag fn" -> k' <> "query parser fn" ->
  k' <> "trust proxy fn" -> k' <> trustProxyDefaultSymbol ->
  settings_after_set C k v m !! k' = m !! k'.
Proof.
  intros H0 H1 H2 H3 H4. unfold settings_after_set.
  destruct (String.eqb k "etag"); [|destruct (String.eqb k "query parser");
    [|destruct (String.eqb k "trust proxy")]];
    rewrite !lookup_insert_ne by congruence; reflexivity.
Qed.

Lemma after_set_settings C k v x :
  settings (after_set C k v x) = settings_after_set C k v (settings x).
Proof. unfold after_set. destruct (String.eqb k "trust proxy"); reflexivity. Qed.

Lemma after_set_links C k v x :
  settings_proto (after_set C k v x) = settings_proto x
  /\ settings_cut (after_set C k v x) = settings_cut x
  /\ _router (after_set C k v x) = _router x.
Proof. unfold after_set. destruct (String.eqb k "trust proxy"); repeat split. Qed.

Lemma get_after_set C this k v x st :
  k <> "__proto__" -> k <> trustProxyDefaultSymbol ->
  apps st !! this = Some x ->
  settings_get this k (exec (set C this k (Some v)) st) = v.
Proof.
  intros H1 H2 Hx. unfold exec. rewrite set_exec by assumption. simpl.
  eapply settings_get_own.
  - rewrite lookup_upd_app, decide_True by reflexivity. rewrite Hx. reflexivity.
  - rewrite after_set_settings. apply settings_after_set_same.
Qed.





(** X13: the three settings with a compiled companion keep it in
    step: after [set] of "etag", "query parser" or "trust proxy" the
    setting of the same name with " fn" is what the compile function
    makes of the value, and "trust proxy" also clears the mark of the
    default. *)
Theorem set_compiles_companion C st this v :
  is_Some (apps st !! this) ->
  settings_get this "etag fn" (exec (set C this "etag" (Some v)) st)
  = compileETag C v
  /\ settings_get this "query parser fn"
       (exec (set C this "query parser" (Some v)) st)
     = compileQueryParser C v
  /\ settings_get this "trust proxy fn"
       (exec (set C this "trust proxy" (Some v)) st)
     = compileTrust C v
  /\ settings_get this trustProxyDefaultSymbol
       (exec (set C this "trust proxy" (Some v)) st)
     = JBool false.
Proof.
  intros [x Hx]. unfold exec. rewrite !set_exec by discriminate. simpl.
  assert (Hl : forall g, apps (upd_app this g st) !! this = Some (g x))
    by (intros g; rewrite lookup_upd_app, decide_True by reflexivity;
        rewrite Hx; reflexivity).
  repeat split; (eapply settings_get_own; [apply Hl|]);
    rewrite after_set_settings; unfold settings_after_set; simpl.
  - apply lookup_insert_eq.
  - apply lookup_insert_eq.
  - rewrite lookup_insert_ne by discriminate. apply lookup_insert_eq.
  - apply lookup_insert_eq.
Qed.

Lemma set_compiles_companion_witness :
  is_Some (apps one_app !! 0)
  /\ settings_get 0 "etag fn" (exec (set example_config 0 "etag" (Some JNull)) one_app)
     = compileETag example_config JNull
  /\ settings_get 0 "query parser fn"
       (exec (set example_config 0 "query parser" (Some JNull)) one_app)
     = compileQueryParser example_config JNull
  /\ settings_get 0 "trust proxy fn"
       (exec (set example_config 0 "trust proxy" (Some JNull)) one_app)
     = compileTrust example_config JNull
  /\ settings_get 0 trustProxyDefaultSymbol
       (exec (set example_config 0 "trust proxy" (Some JNull)) one_app)
     = JBool false.
Proof.
  split; [vm_compute; eauto|].
  apply (set_compiles_companion example_config one_app 0 JNull).
  vm_compute. eauto.
Defined.

(** X14: [set] of a setting that is assigned like any other touches
    the setting, its companion and the mark of the default alone:
    every other setting reads as before, in every application.  The
    name [__proto__] is not such a setting: it replaces the prototype
    of the settings. *)
Theorem set_leaves_other_settings C st this k v a k' :
  k <> "__proto__" ->
  k' <> "__proto__" ->
  k' <> k -> k' <> "etag fn" -> k' <> "query parser fn" ->
  k' <> "trust proxy fn" -> k' <> trustProxyDefaultSymbol ->
  settings_get a k' (exec (set C this k (Some v)) st) = settings_get a k' st.
Proof.
  intros Hk Hk' H0 H1 H2 H3 H4.
  destruct (decide (k = trustProxyDefaultSymbol)) as [->|Hm].
  - (* the mark: the assignment throws, or sets the mark alone *)
    unfold exec, set, bind, assign_setting.
    change (String.eqb trustProxyDefaultSymbol "__proto__") with false.
    change (String.eqb trustProxyDefaultSymbol trustProxyDefaultSymbol) with true.
    change (String.eqb trustProxyDefaultSymbol "etag") with false.
    change (String.eqb trustProxyDefaultSymbol "query parser") with false.
    change (String.eqb trustProxyDefaultSymbol "trust proxy") with false.
    cbv iota.
    destruct (settings_owner (length (apps st)) st this trustProxyDefaultSymbol
              ≫= (fun b => apps st !! b)) as [owner|];
      [destruct (mark_readonly owner); [reflexivity|]|];
      simpl; apply settings_get_upd_key; try reflexivity;
      intros x; simpl; apply lookup_insert_ne; congruence.
  - unfold exec. rewrite set_exec by assumption. simpl.
    apply settings_get_upd_key.
    + intros x. rewrite after_set_settings. apply settings_after_set_other; assumption.
    + intros x. apply after_set_links.
    + intros x. apply after_set_links.
Qed.

Lemma set_leaves_other_settings_witness :
  "etag" <> "__proto__" /\ "env" <> "__proto__"
  /\ "env" <> "etag" /\ "env" <> "etag fn" /\ "env" <> "query parser fn"
  /\ "env" <> "trust proxy fn" /\ "env" <> trustProxyDefaultSymbol
  /\ settings_get 0 "env" (exec (set example_config 0 "etag" (Some JNull)) one_app)
     = settings_get 0 "env" one_app.
Proof.
  do 7 (split; [discriminate|]).
  apply (set_leaves_other_settings example_config one_app 0 "etag" JNull 0 "env");
    discriminate.
Defined.

(** The assignments to the two names that are not settings like any
    other: [__proto__] with the value [null] cuts the chain of the
    settings, so that an inherited setting is lost and the name
    itself reads as undefined; the mark of the default throws. *)
Lemma set_special_names :
  settings_get 1 "case sensitive routing"
    (exec (use example_config 0 [JStr "/c"; JFun (AppFn 1)]) two_apps) = JBool true
  /\ settings_get 1 "case sensitive routing"
       (exec (use example_config 0 [JStr "/c"; JFun (AppFn 1)] ;;
              set example_config 1 "__proto__" (Some JNull)) two_apps) = JUndefined
  /\ fst ((set example_config 0 "__proto__" (Some JNull) ;;
           get example_config 0 "__proto__") one_app) = Ok JUndefined
  /\ (exists msg,
        fst (set example_config 0 trustProxyDefaultSymbol (Some (JBool false)) one_app)
        = Throw (TypeError msg)).
Proof.
  split; [vm_compute; reflexivity|]. split; [vm_compute; reflexivity|].
  split; [vm_compute; reflexivity|]. eexists. vm_compute. reflexivity.
Qed.

(** *** Settings and the router *)

Lemma same_routing_assign_setting this k v : keeps same_routing (assign_setting this k v).
Proof.
  intros st. unfold exec, assign_setting.
  destruct (String.eqb k "__proto__").
  - destruct (proto_key_of (length (apps st)) st this);
      [|destruct (is_object v || is_null v)|]; simpl;
      first [apply same_routing_refl|apply same_routing_upd; reflexivity].
  - destruct (String.eqb k trustProxyDefaultSymbol).
    + destruct (settings_owner (length (apps st)) st this k
                ≫= (fun b => apps st !! b)) as [owner|];
        [destruct (mark_readonly owner)|]; simpl;
        first [apply same_routing_refl|apply same_routing_upd; reflexivity].
    + simpl. apply same_routing_upd. reflexivity.
Qed.

Lemma same_routing_set C this k v : keeps same_routing (set C this k (Some v)).
Proof.
  unfold set.
  repeat first
    [ apply keeps_bind; [exact same_routing_trans| |intros ?]
    | apply keeps_if
    | apply keeps_ret; exact same_routing_refl
    | apply same_routing_assign_setting
    | apply keeps_modify; intros ?; apply same_routing_upd; reflexivity ].
Qed.

(** [lazyrouter] behind a computation that leaves the router there. *)
Lemma exec_then_lazyrouter {A} (m : M A) C this r st :
  router_of this (exec m st) = Some r ->
  exec (m ;; lazyrouter C this) st = exec m st.
Proof.
  unfold exec, bind. destruct (m st) as [[a|e] st1]; simpl; [|reflexivity].
  intros Hr. erewrite lazyrouter_existing by exact Hr. reflexivity.
Qed.

(** X15: the router is made once: a setting that changes when the
    application has its router leaves the router and its options as
    they are, [lazyrouter] included, and with it every Router and every
    Route.  The loop of the Routers reads nothing else: a dispatch
    differs from the one before only where the code of the embedder
    itself differs, which can read the setting. *)
Theorem settings_do_not_reach_existing_router C st this r k v :
  router_of this st = Some r ->
  router_of this (exec (set C this k (Some v) ;; lazyrouter C this) st) = Some r
  /\ same_routing st (exec (set C this k (Some v) ;; lazyrouter C this) st)
  /\ (forall E : Embedder,
        E (exec (set C this k (Some v) ;; lazyrouter C this) st) = E st ->
        forall fuel a w cb,
          dispatch E (exec (set C this k (Some v) ;; lazyrouter C this) st)
            fuel a w cb
          = dispatch E st fuel a w cb).
Proof.
  intros Hr.
  pose proof (same_routing_set C this k v st) as Hs.
  assert (Hr' : router_of this (exec (set C this k (Some v)) st) = Some r)
    by (destruct Hs as (_ & Hro & _); rewrite <- Hro; exact Hr).
  rewrite (exec_then_lazyrouter _ C this r st Hr').
  split; [exact Hr'|]. split; [exact Hs|].
  intros E HE fuel a w cb. symmetry.
  apply dispatch_same_routing; [exact Hs|symmetry; exact HE].
Qed.

Lemma settings_do_not_reach_existing_router_witness :
  router_of 0 heard
  = Some (mkRouter (layers_of 0 heard) true false)
  /\ router_of 0
       (exec (set example_config 0 "case sensitive routing" (Some (JBool false)) ;;
              lazyrouter example_config 0) heard)
     = Some (mkRouter (layers_of 0 heard) true false)
  /\ settings_get 0 "case sensitive routing"
       (exec (set example_config 0 "case sensitive routing" (Some (JBool false)) ;;
              lazyrouter example_config 0) heard)
     = JBool false
  /\ same_routing heard
       (exec (set example_config 0 "case sensitive routing" (Some (JBool false)) ;;
              lazyrouter example_config 0) heard)
  /\ (forall fuel a w cb,
        dispatch (fun _ => example_runtime)
          (exec (set example_config 0 "case sensitive routing" (Some (JBool false)) ;;
                 lazyrouter example_config 0) heard) fuel a w cb
        = dispatch (fun _ => example_runtime) heard fuel a w cb).
Proof.
  split; [vm_compute; reflexivity|].
  destruct (settings_do_not_reach_existing_router example_config heard 0
              (mkRouter (layers_of 0 heard) true false)
              "case sensitive routing" (JBool false)) as (H1 & H2 & H3);
    [vm_compute; reflexivity|].
  split; [exact H1|]. split; [vm_compute; reflexivity|]. split; [exact H2|].
  apply (H3 (fun _ => example_runtime)). reflexivity.
Defined.

(** *** The forms of [use] *)

Lemma first_leaf_array hs :
  is_function (first_leaf (JArr hs)) = true ->
  is_function (first_leaf (nth 0 hs JUndefined)) = true.
Proof. destruct hs as [|x l]; simpl; [discriminate|trivial]. Qed.

(** X16: the three ways to give handlers without a path agree: when
    the first handler is a function, or an array that leads to one,
    [use(h...)], [use("/", h...)] and [use([h...])] are the same call. *)
Theorem use_forms_agree C st this hs :
  is_function (first_leaf (JArr hs)) = true ->
  use C this (JStr "/" :: hs) st = use C this hs st
  /\ use C this [JArr hs] st = use C this hs st.
Proof.
  intros Hf. pose proof (first_leaf_array hs Hf) as Hn.
  unfold use. rewrite !use_offset_path_spec.
  change (nth 0 (JStr "/" :: hs) JUndefined) with (JStr "/").
  change (nth 0 [JArr hs] JUndefined) with (JArr hs).
  rewrite Hf, Hn. simpl is_function. cbv iota.
  split; [reflexivity|].
  assert (He : flatten (drop 0 [JArr hs]) = flatten (drop 0 hs)).
  { simpl drop. rewrite !flatten_flat_map. simpl.
    rewrite app_nil_r. apply (flatten_flat_map hs). }
  rewrite He. reflexivity.
Qed.

Lemma use_forms_agree_witness :
  is_function (first_leaf (JArr use_example_args)) = true
  /\ use example_config 0 (JStr "/" :: use_example_args) one_app
     = use example_config 0 use_example_args one_app
  /\ use example_config 0 [JArr use_example_args] one_app
     = use example_config 0 use_example_args one_app.
Proof.
  split; [reflexivity|].
  apply (use_forms_agree example_config one_app 0 use_example_args). reflexivity.
Defined.

(** X17: the first registration puts the two built-in functions in
    front: on an application without router a call of [use] that
    returns leaves the stack [query], [init], then the functions
    registered for the values of the call, handlers and the wrappers of
    what is mounted, and the router has the options that the settings
    give at that moment. *)
Theorem use_installs_builtins_first C st this args st' :
  is_Some (apps st !! this) ->
  router_of this st = None ->
  use C this args st = (Ok this, st') ->
  exists fs,
    map registered (flat_map flatten_value (drop (fst (use_offset_path args)) args))
    = map Some fs
    /\ router_of this st'
       = Some (mkRouter
                 ([mkLayer (JStr "/") false
                     (HFunc (QueryMw (settings_get this "query parser fn" st)));
                   mkLayer (JStr "/") false (HFunc (InitMw this))]
                  ++ map (handler_layer (snd (use_offset_path args))) fs)
                 (truthy (settings_get this "case sensitive routing" st))
                 (truthy (settings_get this "strict routing" st))).
Proof.
  intros [x Hx] Hnone Hu. unfold use in Hu.
  destruct (use_offset_path args) as [offset path] eqn:Eop. simpl.
  destruct (Nat.eqb (length (flatten (drop offset args))) 0); [discriminate|].
  unfold bind in Hu. rewrite (lazyrouter_creates C this st Hnone) in Hu.
  rewrite (settings_get_upd this) in Hu by reflexivity.
  match type of Hu with
  | context [forEach _ _ ?s] => set (st1 := s) in Hu
  end.
  assert (Hr : router_of this st1
               = Some (mkRouter
                         [mkLayer (JStr "/") false
                            (HFunc (QueryMw (settings_get this "query parser fn" st)));
                          mkLayer (JStr "/") false (HFunc (InitMw this))]
                         (truthy (settings_get this "case sensitive routing" st))
                         (truthy (settings_get this "strict routing" st)))).
  { unfold st1.
    match goal with
    | |- router_of this (upd_app this (push_layer ?li)
                           (upd_app this (push_layer ?lq)
                              (upd_app this (with_router (Some ?r0)) st))) = _ =>
        assert (H0 : router_of this (upd_app this (with_router (Some r0)) st)
                     = Some r0)
          by (rewrite router_of_upd_same, Hx; reflexivity);
        pose proof (router_of_push this lq r0 _ H0) as H1;
        pose proof (router_of_push this li _ _ H1) as H2
    end.
    exact H2. }
  destruct (forEach (flatten (drop offset args)) (use_each C this path) st1)
    as [[[]|e] st2] eqn:Ef; [|discriminate].
  injection Hu as <-.
  destruct (forEach_use_each_ok C this path _ _ st1 st2 Hr Ef) as (fs & Hfs & Hr2).
  exists fs. rewrite <- flatten_flat_map. split; [exact Hfs|]. exact Hr2.
Qed.

Lemma use_installs_builtins_first_witness :
  is_Some (apps one_app !! 0)
  /\ router_of 0 one_app = None
  /\ use example_config 0 use_example_args one_app
     = (Ok 0, exec (use example_config 0 use_example_args) one_app)
  /\ exists fs,
       map registered
         (flat_map flatten_value
            (drop (fst (use_offset_path use_example_args)) use_example_args))
       = map Some fs
       /\ router_of 0 (exec (use example_config 0 use_example_args) one_app)
          = Some (mkRouter
                    ([mkLayer (JStr "/") false
                        (HFunc (QueryMw (settings_get 0 "query parser fn" one_app)));
                      mkLayer (JStr "/") false (HFunc (InitMw 0))]
                     ++ map (handler_layer (snd (use_offset_path use_example_args))) fs)
                    (truthy (settings_get 0 "case sensitive routing" one_app))
                    (truthy (settings_get 0 "strict routing" one_app))).
Proof.
  split; [vm_compute; eauto|]. split; [reflexivity|].
  split; [vm_compute; reflexivity|].
  apply (use_installs_builtins_first example_config one_app 0 use_example_args);
    [vm_compute; eauto|reflexivity|vm_compute; reflexivity].
Defined.

(** *** Engines *)

(** X18: [engine] files the function under the extension with its
    leading dot, added when it is missing, so "ejs" and ".ejs" name
    the same entry; the other entries stay as they are. *)
Theorem engine_registers_dotted (engines : gmap string jsval) (ext : string)
  (fn : jsval) :
  is_function fn = true ->
  engine engines (extension ext) fn = engine engines ext fn
  /\ (exists r, extension ext = String "."%char r)
  /\ exists engines',
       engine engines ext fn = inr engines'
       /\ engines' !! extension ext = Some fn
       /\ forall k, k <> extension ext -> engines' !! k = engines !! k.
Proof.
  intros Hf.
  assert (Hd : exists r, extension ext = String "."%char r).
  { unfold extension. destruct ext as [|a r]; [eauto|].
    destruct (Ascii.eqb a "."%char) eqn:E.
    - apply Ascii.eqb_eq in E. subst a. eauto.
    - destruct a as [[] [] [] [] [] [] [] []]; eauto. }
  split; [|split; [exact Hd|]].
  - destruct Hd as [r Hr]. unfold engine. rewrite Hf. simpl.
    do 2 f_equal. rewrite Hr. reflexivity.
  - unfold engine. rewrite Hf. simpl. eexists. split; [reflexivity|].
    split; [apply lookup_insert_eq|].
    intros k Hk. apply lookup_insert_ne. congruence.
Qed.

Lemma engine_registers_dotted_witness :
  is_function (JFun (ExternFn "ejs.renderFile")) = true
  /\ engine ∅ (extension "ejs") (JFun (ExternFn "ejs.renderFile"))
     = engine ∅ "ejs" (JFun (ExternFn "ejs.renderFile"))
  /\ (exists r, extension "ejs" = String "."%char r)
  /\ exists engines',
       engine ∅ "ejs" (JFun (ExternFn "ejs.renderFile")) = inr engines'
       /\ engines' !! extension "ejs" = Some (JFun (ExternFn "ejs.renderFile"))
       /\ forall k, k <> extension "ejs" -> engines' !! k = (∅ : gmap string jsval) !! k.
Proof.
  split; [reflexivity|].
  apply (engine_registers_dotted ∅ "ejs" (JFun (ExternFn "ejs.renderFile"))).
  reflexivity.
Defined.

(** *** A new application *)

Lemma alter_last {A} (l : list A) f x : alter f (length l) (l ++ [x]) = l ++ [f x].
Proof. induction l as [|y l IH]; simpl; [reflexivity|]. f_equal. exact IH. Qed.

(** [createApplication] appends the new application to the store. *)
Lemma createApplication_exec C st :
  createApplication C st
  = (Ok (JFun (AppFn (length (apps st)))),
     mkStore (apps st ++ [new_app C]) (routes st) (emitted st)).
Proof.
  unfold new_app, exec.
  unfold createApplication, init, defaultConfiguration, enable, set,
    assign_setting, on, bind, modify, gets, ret, upd_app.
  cbn -[insert alter].
  destruct (is_production (js_or (NODE_ENV C) (JStr "development")));
    cbn -[insert alter]; rewrite !alter_last; reflexivity.
Qed.

Lemma new_app_router C : _router (new_app C) = None.
Proof.
  unfold new_app, exec.
  unfold createApplication, init, defaultConfiguration, enable, set,
    assign_setting, on, bind, modify, gets, ret, upd_app.
  cbn -[insert].
  destruct (is_production (js_or (NODE_ENV C) (JStr "development"))); reflexivity.
Qed.

(** X19: an application as [createApplication] returns it has no
    router: whatever the request, [handle] calls the callback at once,
    without an error, and no handler has run.  Called as a function
    without a callback it throws a ReferenceError instead: the default
    handler is built from [logerror], which nothing defines. *)
Theorem new_application_calls_back C R st n w cb :
  router_of (length (apps st)) (exec (createApplication C) st) = None
  /\ handle R (exec (createApplication C) st) (S n) (length (apps st)) w (Some cb)
     = cb None w
  /\ call_app R (exec (createApplication C) st) (S n) (length (apps st)) w None
     = Uncaught (ReferenceError "logerror is not defined") w.
Proof.
  unfold exec. rewrite createApplication_exec. simpl.
  assert (Hr : router_of (length (apps st))
                 (mkStore (apps st ++ [new_app C]) (routes st) (emitted st)) = None).
  { unfold router_of. simpl. rewrite list_lookup_middle by reflexivity. simpl.
    apply new_app_router. }
  split; [exact Hr|]. split; [|reflexivity].
  apply handle_body_no_layers. unfold layers_of. rewrite Hr. reflexivity.
Qed.

Lemma new_app_fields C :
  settings (new_app C) !! "env" = Some (JStr "env")
  /\ settings (new_app C) !! "view cache"
     = (if is_production (js_or (NODE_ENV C) (JStr "development"))
        then Some (JBool true) else None)
  /\ settings (new_app C) !! "trust proxy" = Some (JBool false)
  /\ settings (new_app C) !! "trust proxy fn" = Some (compileTrust C (JBool false))
  /\ settings (new_app C) !! trustProxyDefaultSymbol = Some (JBool true)
  /\ settings_proto (new_app C) = None
  /\ parent (new_app C) = None
  /\ mountpath (new_app C) = JStr "/"
  /\ listeners (new_app C) = [("mount", Onmount)]
  /\ settings_cut (new_app C) = None
  /\ mark_readonly (new_app C) = true.
Proof.
  unfold new_app, exec.
  unfold createApplication, init, defaultConfiguration, enable, set,
    assign_setting, on, bind, modify, gets, ret, upd_app.
  cbn -[insert].
  destruct (is_production (js_or (NODE_ENV C) (JStr "development")));
    cbn -[insert]; repeat split; vm_compute; reflexivity.
Qed.

(** X20: the settings of a new application: "env" is the string
    "env" whatever NODE_ENV says, "view cache" is on exactly when
    NODE_ENV is "production", "trust proxy" is false with its compiled
    function and carries the mark of the default. *)
Theorem new_application_settings C st :
  settings_get (length (apps st)) "env" (exec (createApplication C) st) = JStr "env"
  /\ truthy (settings_get (length (apps st)) "view cache"
               (exec (createApplication C) st))
     = is_production (js_or (NODE_ENV C) (JStr "development"))
  /\ settings_get (length (apps st)) "trust proxy" (exec (createApplication C) st)
     = JBool false
  /\ settings_get (length (apps st)) "trust proxy fn" (exec (createApplication C) st)
     = compileTrust C (JBool false)
  /\ settings_get (length (apps st)) trustProxyDefaultSymbol
       (exec (createApplication C) st)
     = JBool true.
Proof.
  unfold exec. rewrite createApplication_exec. simpl.
  assert (Hl : apps (mkStore (apps st ++ [new_app C]) (routes st) (emitted st))
               !! length (apps st) = Some (new_app C))
    by (simpl; apply list_lookup_middle; reflexivity).
  destruct (new_app_fields C) as (He & Hv & Ht & Hf & Hs & Hp & _ & _ & _ & Hc & _).
  split; [eapply settings_get_own; eassumption|].
  split; [|repeat split; eapply settings_get_own; eassumption].
  destruct (is_production (js_or (NODE_ENV C) (JStr "development"))).
  - erewrite settings_get_own; [|exact Hl|exact Hv]. reflexivity.
  - unfold settings_get.
    destruct (length (apps (mkStore (apps st ++ [new_app C]) (routes st) (emitted st))));
      cbn [settings_lookup]; rewrite Hl, Hv, Hc, ?Hp; reflexivity.
Qed.

(** *** Mounting: the path and the settings of the child *)

Lemma same_obs_refl {X} (o : app -> X) st : same_obs o st st.
Proof. intros a. reflexivity. Qed.

Lemma same_obs_trans {X} (o : app -> X) s1 s2 s3 :
  same_obs o s1 s2 -> same_obs o s2 s3 -> same_obs o s1 s3.
Proof. intros H1 H2 a. rewrite H1. apply H2. Qed.

Lemma same_obs_upd {X} (o : app -> X) b f st :
  (forall x, o (f x) = o x) -> same_obs o st (upd_app b f st).
Proof.
  intros Hf a. rewrite lookup_upd_app. destruct (decide (b = a)) as [->|_];
    [|reflexivity].
  destruct (apps st !! a); simpl; [rewrite Hf|]; reflexivity.
Qed.

Lemma same_obs_apps {X} (o : app -> X) st st' :
  apps st = apps st' -> same_obs o st st'.
Proof. intros H a. rewrite H. reflexivity. Qed.

Lemma push_layer_obs {X} (o : app -> X) l x :
  (forall r y, o (with_router r y) = o y) -> o (push_layer l x) = o x.
Proof. intros Hr. unfold push_layer. destruct (_router x); [apply Hr|reflexivity]. Qed.

(** What the registration before the event leaves alone. *)
Lemma same_obs_lazyrouter {X} (o : app -> X) C this st :
  (forall r y, o (with_router r y) = o y) ->
  same_obs o st (exec (lazyrouter C this) st).
Proof.
  intros Hr. unfold exec. destruct (router_of this st) as [r|] eqn:E.
  - erewrite lazyrouter_existing by exact E. apply same_obs_refl.
  - rewrite lazyrouter_creates by exact E. simpl.
    eapply same_obs_trans; [|apply same_obs_upd; intros x; apply push_layer_obs, Hr].
    eapply same_obs_trans; [|apply same_obs_upd; intros x; apply push_layer_obs, Hr].
    apply same_obs_upd. intros x. apply Hr.
Qed.

Lemma same_obs_before_mount {X} (o : app -> X) C this c p st :
  (forall r y, o (with_router r y) = o y) ->
  (forall q y, o (with_mountpath q y) = o y) ->
  (forall q y, o (with_parent q y) = o y) ->
  same_obs o st (before_mount C this c p st).
Proof.
  intros Hr Hm Hp. unfold before_mount.
  eapply same_obs_trans; [|apply same_obs_apps; reflexivity].
  eapply same_obs_trans; [|apply same_obs_upd; intros x; apply push_layer_obs, Hr].
  eapply same_obs_trans; [|apply same_obs_upd; intros x; apply Hp].
  eapply same_obs_trans; [|apply same_obs_upd; intros x; apply Hm].
  apply same_obs_lazyrouter, Hr.
Qed.

(** A lookup of a setting reads the settings and their links alone. *)
Lemma settings_lookup_same_obs fuel st st' k :
  same_obs (fun x => (settings x, settings_proto x, settings_cut x)) st st' ->
  forall a, settings_lookup fuel st a k = settings_lookup fuel st' a k.
Proof.
  intros H. induction fuel as [|n IH]; intros a; cbn [settings_lookup];
    pose proof (H a) as Ha;
    destruct (apps st !! a) as [x|], (apps st' !! a) as [y|]; simpl in Ha;
    try discriminate; try reflexivity;
    injection Ha as Hs Hp Hc; rewrite Hs, Hc; try rewrite Hp; try reflexivity.
  destruct (settings y !! k); [reflexivity|].
  destruct (settings_cut y); [reflexivity|].
  destruct (settings_proto y); [apply IH|reflexivity].
Qed.

Lemma same_obs_length {X} (o : app -> X) st st' :
  same_obs o st st' -> length (apps st) = length (apps st').
Proof.
  intros H.
  assert (Hle : forall s t : store, same_obs o s t ->
                                    length (apps s) <= length (apps t)).
  { intros s t Hst. destruct (decide (length (apps s) <= length (apps t))) as [|Hn];
      [assumption|].
    specialize (Hst (length (apps t))).
    rewrite (lookup_ge_None_2 (apps t)) in Hst by lia.
    destruct (lookup_lt_is_Some_2 (apps s) (length (apps t))) as [x Hx]; [lia|].
    rewrite Hx in Hst. discriminate. }
  apply Nat.le_antisymm; [apply Hle, H|].
  apply Hle. intros a. symmetry. apply H.
Qed.

Lemma settings_get_same_obs st st' a k :
  same_obs (fun x => (settings x, settings_proto x, settings_cut x)) st st' ->
  settings_get a k st = settings_get a k st'.
Proof.
  intros H. unfold settings_get. rewrite (same_obs_length _ _ _ H).
  apply settings_lookup_same_obs, H.
Qed.

Lemma emit_single c ev arg st :
  listeners_for c ev st = [Onmount] ->
  emit c ev arg st
  = match onmount c arg
            (mkStore (apps st) (routes st) (emitted st ++ [(c, ev, arg)])) with
    | (Ok _, st') => (Ok tt, st')
    | (Throw e, st') => (Throw e, st')
    end.
Proof.
  intros Hl. unfold emit, bind, modify, gets.
  change (listeners_for c ev
            (mkStore (apps st) (routes st) (emitted st ++ [(c, ev, arg)])))
    with (listeners_for c ev st).
  rewrite Hl. cbn [forEach run_listener]. unfold bind, ret.
  destruct (onmount c arg _) as [[[]|e] st2]; reflexivity.
Qed.

(** [use(p, app)] is the event in the store made ready for it. *)
Lemma use_mount_run C this c p st :
  is_function (first_leaf p) = false ->
  listeners_for c "mount" st = [Onmount] ->
  use C this [p; JFun (AppFn c)] st
  = match onmount c this (before_mount C this c p st) with
    | (Ok _, st') => (Ok this, st')
    | (Throw e, st') => (Throw e, st')
    end.
Proof.
  intros Hp Hl. unfold use.
  assert (Hop : use_offset_path [p; JFun (AppFn c)] = (1, p))
    by (rewrite use_offset_path_spec; simpl; rewrite Hp; reflexivity).
  rewrite Hop. cbn [drop flatten flatten_value Datatypes.app length Nat.eqb forEach].
  unfold bind at 1. pose proof (lazyrouter_ok C this st) as Hok.
  assert (Hl' : listeners_for c "mount" (before_mount C this c p st) = [Onmount]).
  { rewrite <- Hl. unfold listeners_for.
    pose proof (same_obs_before_mount listeners C this c p st
                  (fun _ _ => eq_refl) (fun _ _ => eq_refl) (fun _ _ => eq_refl) c)
      as Ho.
    destruct (apps st !! c) as [x|], (apps (before_mount C this c p st) !! c) as [y|];
      simpl in Ho; try discriminate; [|reflexivity].
    injection Ho as Ho. rewrite Ho. reflexivity. }
  unfold before_mount, exec in *.
  destruct (lazyrouter C this st) as [[[]|e] st1]; [|discriminate].
  cbn [snd] in *.
  set (s3 := upd_app this (push_layer (mkLayer p false (HFunc (MountedApp c))))
               (upd_app c (with_parent (Some this))
                  (upd_app c (with_mountpath p) st1))) in *.
  unfold bind, ret.
  change (use_each C this p (JFun (AppFn c)) st1) with (emit c "mount" this s3).
  rewrite (emit_single c "mount" this s3 Hl').
  destruct (onmount c this _) as [[[]|e] st2]; reflexivity.
Qed.

Lemma set_protos_ok this p0 s st' :
  (setPrototypeOf PRequest this p0 ;; setPrototypeOf PResponse this p0 ;;
   setPrototypeOf PEngines this p0 ;; setPrototypeOf PSettings this p0) s
  = (Ok tt, st') ->
  this <> p0
  /\ st' = upd_app this (with_proto PSettings (Some p0))
             (upd_app this (with_proto PEngines (Some p0))
                (upd_app this (with_proto PResponse (Some p0))
                   (upd_app this (with_proto PRequest (Some p0)) s))).
Proof.
  unfold bind, setPrototypeOf.
  destruct (proto_reaches PRequest (length (apps s)) s p0 this) eqn:E1;
    [discriminate|].
  destruct (proto_reaches PResponse _ _ p0 this); [discriminate|].
  destruct (proto_reaches PEngines _ _ p0 this); [discriminate|].
  destruct (proto_reaches PSettings _ _ p0 this); [discriminate|].
  intros [= <-]. split; [|reflexivity].
  intros ->. destruct (length (apps s)); simpl in E1;
    rewrite Nat.eqb_refl in E1; discriminate.
Qed.

(** What [onmount] has done when it ends. *)
Lemma onmount_ok this p0 st st' :
  onmount this p0 st = (Ok tt, st') ->
  this <> p0
  /\ st' = upd_app this (with_proto PSettings (Some p0))
             (upd_app this (with_proto PEngines (Some p0))
                (upd_app this (with_proto PResponse (Some p0))
                   (upd_app this (with_proto PRequest (Some p0))
                      (upd_app this
                         (fun x =>
                            with_settings
                              (mount_deletes
                                 (is_true (settings_get this trustProxyDefaultSymbol st)
                                  && is_function (settings_get p0 "trust proxy fn" st))
                                 (settings x)) x)
                         st)))).
Proof.
  intros H. apply set_protos_ok.
  rewrite <- H. unfold onmount, bind, gets. cbv beta iota.
  destruct (is_true (settings_get this trustProxyDefaultSymbol st)
            && is_function (settings_get p0 "trust proxy fn" st));
    unfold delete_setting, modify, ret, mount_deletes; cbv beta iota.
  - rewrite upd_app_twice. reflexivity.
  - rewrite upd_app_id by (intros []; reflexivity). reflexivity.
Qed.

(** What [use(p, app)] has done to the settings when it returns. *)
Lemma use_mount_ok C this c p st st' xc xt :
  is_function (first_leaf p) = false ->
  listeners_for c "mount" st = [Onmount] ->
  apps st !! c = Some xc ->
  apps st !! this = Some xt ->
  use C this [p; JFun (AppFn c)] st = (Ok this, st') ->
  c <> this
  /\ exists xc' xt',
       apps st' !! c = Some xc'
       /\ settings xc'
          = mount_deletes
              (is_true (settings_get c trustProxyDefaultSymbol st)
               && is_function (settings_get this "trust proxy fn" st))
              (settings xc)
       /\ settings_proto xc' = Some this
       /\ settings_cut xc' = None
       /\ apps st' !! this = Some xt'
       /\ settings xt' = settings xt.
Proof.
  intros Hp Hl Hc Ht Hu. rewrite (use_mount_run C this c p st Hp Hl) in Hu.
  destruct (onmount c this (before_mount C this c p st)) as [[[]|e] st2] eqn:Eo;
    [|discriminate].
  injection Hu as <-.
  destruct (onmount_ok _ _ _ _ Eo) as [Hne ->].
  pose proof (same_obs_before_mount
                (fun x => (settings x, settings_proto x, settings_cut x))
                C this c p st (fun _ _ => eq_refl) (fun _ _ => eq_refl)
                (fun _ _ => eq_refl)) as Ho.
  rewrite <- !(settings_get_same_obs st (before_mount C this c p st)) by exact Ho.
  split; [exact Hne|].
  pose proof (Ho c) as Hoc. pose proof (Ho this) as Hot.
  rewrite Hc in Hoc. rewrite Ht in Hot.
  destruct (apps (before_mount C this c p st) !! c) as [yc|] eqn:Eyc;
    [|discriminate].
  destruct (apps (before_mount C this c p st) !! this) as [yt|] eqn:Eyt;
    [|discriminate].
  simpl in Hoc, Hot. injection Hoc as Hs1 Hp1 Hc1. injection Hot as Hs2 Hp2 Hc2.
  eexists _, yt.
  rewrite !lookup_upd_app, !decide_True by reflexivity.
  rewrite !decide_False by exact Hne. rewrite Eyc, Eyt. simpl.
  split; [reflexivity|]. split; [simpl; rewrite <- Hs1; reflexivity|].
  split; [reflexivity|]. split; [reflexivity|]. split; [reflexivity|].
  symmetry. exact Hs2.
Qed.

Lemma settings_get_inherited st c this xc xt k v :
  apps st !! c = Some xc -> settings xc !! k = None ->
  settings_proto xc = Some this -> settings_cut xc = None ->
  apps st !! this = Some xt -> settings xt !! k = Some v ->
  settings_get c k st = v.
Proof.
  intros Hc Hk Hp Hcut Ht Hv. unfold settings_get.
  destruct (length (apps st)) as [|n] eqn:El.
  - apply lookup_lt_Some in Hc. lia.
  - cbn [settings_lookup]. rewrite Hc, Hk, Hcut, Hp.
    destruct n; cbn [settings_lookup]; rewrite Ht, Hv; reflexivity.
Qed.

Lemma mount_deletes_none b m k : m !! k = None -> mount_deletes b m !! k = None.
Proof.
  intros H. unfold mount_deletes. destruct b; [|exact H].
  rewrite !lookup_delete. repeat case_decide; try reflexivity. exact H.
Qed.

(** X21: a mounted application inherits the settings of its parent:
    when [use(p, app)] returns, a setting that the application does
    not hold itself and the parent holds reads, in the application, as
    the value of the parent. *)
Theorem mounted_inherits_settings C st this c p k v st' :
  is_function (first_leaf p) = false ->
  listeners_for c "mount" st = [Onmount] ->
  is_Some (apps st !! c) ->
  own_setting c k st = None ->
  own_setting this k st = Some v ->
  use C this [p; JFun (AppFn c)] st = (Ok this, st') ->
  settings_get c k st' = v.
Proof.
  intros Hp Hl [xc Hc] Hk Hv Hu. unfold own_setting in Hk, Hv.
  rewrite Hc in Hk. simpl in Hk.
  destruct (apps st !! this) as [xt|] eqn:Ht; [|discriminate]. simpl in Hv.
  destruct (use_mount_ok C this c p st st' xc xt Hp Hl Hc Ht Hu)
    as (_ & xc' & xt' & Hc' & Hs & Hsp & Hcut & Ht' & Hst).
  eapply settings_get_inherited; [exact Hc'| |exact Hsp|exact Hcut|exact Ht'|].
  - rewrite Hs. apply mount_deletes_none, Hk.
  - rewrite Hst. exact Hv.
Qed.

Lemma mounted_inherits_settings_witness :
  is_function (first_leaf (JStr "/c")) = false
  /\ listeners_for 1 "mount" two_apps = [Onmount]
  /\ is_Some (apps two_apps !! 1)
  /\ own_setting 1 "case sensitive routing" two_apps = None
  /\ own_setting 0 "case sensitive routing" two_apps = Some (JBool true)
  /\ use example_config 0 [JStr "/c"; JFun (AppFn 1)] two_apps
     = (Ok 0, exec (use example_config 0 [JStr "/c"; JFun (AppFn 1)]) two_apps)
  /\ settings_get 1 "case sensitive routing"
       (exec (use example_config 0 [JStr "/c"; JFun (AppFn 1)]) two_apps)
     = JBool true.
Proof.
  split; [reflexivity|]. split; [reflexivity|]. split; [vm_compute; eauto|].
  split; [vm_compute; reflexivity|]. split; [vm_compute; reflexivity|].
  split; [vm_compute; reflexivity|].
  apply (mounted_inherits_settings example_config two_apps 0 1 (JStr "/c")
           "case sensitive routing" (JBool true));
    try (vm_compute; reflexivity). vm_compute. eauto.
Defined.

(** X22: a mounted application that has the "trust proxy" of the
    default gives it up: when [use(p, app)] returns and the parent
    holds a trust function, the two "trust proxy" settings of the
    application are deleted and it reads the function of the parent. *)
Theorem mounted_default_trust_proxy C st this c p f st' :
  is_function (first_leaf p) = false ->
  listeners_for c "mount" st = [Onmount] ->
  own_setting c trustProxyDefaultSymbol st = Some (JBool true) ->
  own_setting this "trust proxy fn" st = Some (JFun f) ->
  use C this [p; JFun (AppFn c)] st = (Ok this, st') ->
  settings_get c "trust proxy fn" st' = JFun f
  /\ own_setting c "trust proxy fn" st' = None
  /\ own_setting c "trust proxy" st' = None.
Proof.
  intros Hp Hl Hsym Hf Hu. unfold own_setting in Hsym, Hf.
  destruct (apps st !! c) as [xc|] eqn:Hc; [|discriminate]. simpl in Hsym.
  destruct (apps st !! this) as [xt|] eqn:Ht; [|discriminate]. simpl in Hf.
  destruct (use_mount_ok C this c p st st' xc xt Hp Hl Hc Ht Hu)
    as (_ & xc' & xt' & Hc' & Hs & Hsp & Hcut & Ht' & Hst).
  rewrite (settings_get_own c _ xc _ st Hc Hsym) in Hs.
  rewrite (settings_get_own this _ xt _ st Ht Hf) in Hs. simpl in Hs.
  assert (H1 : settings xc' !! "trust proxy fn" = None)
    by (rewrite Hs; apply lookup_delete_eq).
  assert (H2 : settings xc' !! "trust proxy" = None)
    by (rewrite Hs, lookup_delete_ne by discriminate; apply lookup_delete_eq).
  split; [|split].
  - eapply settings_get_inherited;
      [exact Hc'|exact H1|exact Hsp|exact Hcut|exact Ht'|].
    rewrite Hst. exact Hf.
  - unfold own_setting. rewrite Hc'. exact H1.
  - unfold own_setting. rewrite Hc'. exact H2.
Qed.

Lemma mounted_default_trust_proxy_witness :
  is_function (first_leaf (JStr "/c")) = false
  /\ listeners_for 1 "mount" two_apps = [Onmount]
  /\ own_setting 1 trustProxyDefaultSymbol two_apps = Some (JBool true)
  /\ own_setting 0 "trust proxy fn" two_apps = Some (JFun (ExternFn "trust"))
  /\ use example_config 0 [JStr "/c"; JFun (AppFn 1)] two_apps
     = (Ok 0, exec (use example_config 0 [JStr "/c"; JFun (AppFn 1)]) two_apps)
  /\ settings_get 1 "trust proxy fn"
       (exec (use example_config 0 [JStr "/c"; JFun (AppFn 1)]) two_apps)
     = JFun (ExternFn "trust")
  /\ own_setting 1 "trust proxy fn"
       (exec (use example_config 0 [JStr "/c"; JFun (AppFn 1)]) two_apps) = None
  /\ own_setting 1 "trust proxy"
       (exec (use example_config 0 [JStr "/c"; JFun (AppFn 1)]) two_apps) = None.
Proof.
  split; [reflexivity|]. split; [reflexivity|].
  split; [vm_compute; reflexivity|]. split; [vm_compute; reflexivity|].
  split; [vm_compute; reflexivity|].
  apply (mounted_default_trust_proxy example_config two_apps 0 1 (JStr "/c")
           (ExternFn "trust")); vm_compute; reflexivity.
Defined.

(** X23: a mounted application that has set "trust proxy" itself
    keeps it: when [use(p, app)] returns, the application whose mark of
    the default is cleared reads its own trust function as before. *)
Theorem mounted_explicit_trust_proxy C st this c p s g st' :
  is_function (first_leaf p) = false ->
  listeners_for c "mount" st = [Onmount] ->
  is_Some (apps st !! this) ->
  own_setting c trustProxyDefaultSymbol st = Some s ->
  is_true s = false ->
  own_setting c "trust proxy fn" st = Some g ->
  use C this [p; JFun (AppFn c)] st = (Ok this, st') ->
  settings_get c "trust proxy fn" st' = g
  /\ own_setting c "trust proxy fn" st' = Some g.
Proof.
  intros Hp Hl [xt Ht] Hsym Hs0 Hg Hu. unfold own_setting in Hsym, Hg.
  destruct (apps st !! c) as [xc|] eqn:Hc; [|discriminate]. simpl in Hsym, Hg.
  destruct (use_mount_ok C this c p st st' xc xt Hp Hl Hc Ht Hu)
    as (_ & xc' & xt' & Hc' & Hs & Hsp & Hcut & Ht' & Hst).
  rewrite (settings_get_own c _ xc _ st Hc Hsym), Hs0 in Hs. simpl in Hs.
  assert (H1 : settings xc' !! "trust proxy fn" = Some g) by (rewrite Hs; exact Hg).
  split.
  - eapply settings_get_own; eassumption.
  - unfold own_setting. rewrite Hc'. exact H1.
Qed.

Lemma mounted_explicit_trust_proxy_witness :
  is_function (first_leaf (JStr "/c")) = false
  /\ listeners_for 1 "mount" two_apps_explicit = [Onmount]
  /\ is_Some (apps two_apps_explicit !! 0)
  /\ own_setting 1 trustProxyDefaultSymbol two_apps_explicit = Some (JBool false)
  /\ is_true (JBool false) = false
  /\ own_setting 1 "trust proxy fn" two_apps_explicit = Some (JFun (ExternFn "trust"))
  /\ use example_config 0 [JStr "/c"; JFun (AppFn 1)] two_apps_explicit
     = (Ok 0, exec (use example_config 0 [JStr "/c"; JFun (AppFn 1)])
                two_apps_explicit)
  /\ settings_get 1 "trust proxy fn"
       (exec (use example_config 0 [JStr "/c"; JFun (AppFn 1)]) two_apps_explicit)
     = JFun (ExternFn "trust")
  /\ own_setting 1 "trust proxy fn"
       (exec (use example_config 0 [JStr "/c"; JFun (AppFn 1)]) two_apps_explicit)
     = Some (JFun (ExternFn "trust")).
Proof.
  split; [reflexivity|]. split; [reflexivity|]. split; [vm_compute; eauto|].
  split; [vm_compute; reflexivity|]. split; [reflexivity|].
  split; [vm_compute; reflexivity|]. split; [vm_compute; reflexivity|].
  apply (mounted_explicit_trust_proxy example_config two_apps_explicit 0 1
           (JStr "/c") (JBool false) (JFun (ExternFn "trust")));
    try (vm_compute; reflexivity). vm_compute. eauto.
Defined.

(** The event leaves alone what neither the settings nor the
    prototype links hold. *)
Lemma emit_same_obs {X} (o : app -> X) c ev arg :
  (forall s x, o (with_settings s x) = o x) ->
  (forall sl q x, o (with_proto sl q x) = o x) ->
  keeps (same_obs o) (emit c ev arg).
Proof.
  intros Hs Hp.
  assert (Hr : forall st, same_obs o st st) by apply same_obs_refl.
  assert (Ht : forall s1 s2 s3, same_obs o s1 s2 -> same_obs o s2 s3 -> same_obs o s1 s3)
    by apply same_obs_trans.
  assert (Hsp : forall sl a b, keeps (same_obs o) (setPrototypeOf sl a b)).
  { intros sl a b st. unfold exec, setPrototypeOf.
    destruct (proto_reaches sl (length (apps st)) st b a); simpl;
      [apply Hr|apply same_obs_upd; intros x; apply Hp]. }
  assert (Hd : forall a k, keeps (same_obs o) (delete_setting a k)).
  { intros a k. apply keeps_modify. intros st. apply same_obs_upd.
    intros x. apply Hs. }
  unfold emit.
  apply keeps_bind; [exact Ht|apply keeps_modify; intros st a; reflexivity|].
  intros _. apply keeps_bind; [exact Ht|apply keeps_gets; exact Hr|].
  intros ls. apply keeps_forEach; [exact Hr|exact Ht|].
  intros []. unfold run_listener, onmount.
  repeat first
    [ apply keeps_bind; [exact Ht| |intros ?]
    | apply keeps_if
    | apply keeps_gets; exact Hr
    | apply keeps_ret; exact Hr
    | apply Hsp
    | apply Hd ].
Qed.

(** The path of an application reads the parents and the mount paths
    of the application and of those above it. *)
Lemma path_frame ToString c st st' :
  (forall y, y <> c ->
     (fun x => (parent x, mountpath x)) <$> apps st' !! y
     = (fun x => (parent x, mountpath x)) <$> apps st !! y) ->
  forall m x, x <> c -> c ∉ ancestors m st x ->
    path ToString m st' x = path ToString m st x.
Proof.
  intros Hf. induction m as [|m IH]; intros x Hx Hc; [reflexivity|].
  cbn [path ancestors] in *. pose proof (Hf x Hx) as Hfx.
  destruct (apps st' !! x) as [y'|], (apps st !! x) as [y|]; simpl in Hfx;
    try discriminate; [|reflexivity].
  injection Hfx as Hp Hm. simpl in *. rewrite Hp, Hm.
  destruct (parent y) as [q|]; [|reflexivity].
  rewrite IH; [reflexivity| |].
  - intros ->. apply Hc. left.
  - intros Hin. apply Hc. right. exact Hin.
Qed.

(** X24: [use(p, app)] gives the mounted application its place: its
    path is the path of the parent followed by [p], whatever the
    parent is mounted in itself.  When the parent has a path before the
    call and the application is not among those above the parent, the
    path of the application after the call is that path followed by
    [p]. *)
Theorem path_of_mounted ToString C st this c p :
  is_function (first_leaf p) = false ->
  is_Some (apps st !! c) ->
  this <> c ->
  (forall m,
     path ToString (S m) (exec (use C this [p; JFun (AppFn c)]) st) c
     = (fun s => String.append s (ToString p))
         <$> path ToString m (exec (use C this [p; JFun (AppFn c)]) st) this)
  /\ (forall m s,
        path ToString m st this = Some s ->
        c ∉ ancestors m st this ->
        path ToString (S m) (exec (use C this [p; JFun (AppFn c)]) st) c
        = Some (String.append s (ToString p))).
Proof.
  intros Hp [xc Hc] Hne.
  rewrite (use_mount_exec C this c p st Hp), use_each_app_exec.
  set (o := fun x : app => (parent x, mountpath x)).
  set (st1 := exec (lazyrouter C this) st).
  set (s3 := upd_app this (push_layer (mkLayer p false (HFunc (MountedApp c))))
               (upd_app c (with_parent (Some this))
                  (upd_app c (with_mountpath p) st1))).
  set (st' := exec (emit c "mount" this) s3).
  assert (H1 : same_obs o st st1)
    by (apply same_obs_lazyrouter; reflexivity).
  assert (H3 : same_obs o s3 st')
    by (apply (emit_same_obs o); [reflexivity|intros [] q x; reflexivity]).
  assert (Hc' : o <$> apps st' !! c = Some (Some this, p)).
  { rewrite <- (H3 c). unfold s3.
    rewrite lookup_upd_app, decide_False by exact Hne.
    rewrite !lookup_upd_app, !decide_True by reflexivity.
    pose proof (H1 c) as H1c. rewrite Hc in H1c.
    destruct (apps st1 !! c) as [y|]; [reflexivity|discriminate]. }
  assert (Hframe : forall y, y <> c -> o <$> apps st' !! y = o <$> apps st !! y).
  { intros y Hy. rewrite <- (H3 y), (H1 y). unfold s3.
    rewrite lookup_upd_app. destruct (decide (this = y)) as [->|Hty].
    - rewrite !lookup_upd_app, !decide_False by congruence.
      destruct (apps st1 !! y) as [z|]; [|reflexivity]. simpl.
      rewrite (push_layer_obs o) by reflexivity. reflexivity.
    - rewrite !lookup_upd_app, !decide_False by congruence. reflexivity. }
  assert (Hpath : forall m,
            path ToString (S m) st' c
            = (fun s => String.append s (ToString p)) <$> path ToString m st' this).
  { intros m. cbn [path].
    destruct (apps st' !! c) as [y|]; [|discriminate]. simpl in Hc'.
    injection Hc' as Hpar Hmp. simpl. rewrite Hpar, Hmp.
    destruct (path ToString m st' this); reflexivity. }
  split; [exact Hpath|].
  intros m s Hs Hanc. rewrite Hpath.
  rewrite (path_frame ToString c st st' Hframe m this Hne Hanc), Hs. reflexivity.
Qed.

Lemma path_of_mounted_witness :
  is_function (first_leaf (JStr "/admin")) = false
  /\ is_Some (apps blog_mounted !! 2)
  /\ 1 <> 2
  /\ path example_ToString 2 blog_mounted 1 = Some "/blog"
  /\ (2 ∉ ancestors 2 blog_mounted 1)
  /\ path example_ToString 3
       (exec (use example_config 1 [JStr "/admin"; JFun (AppFn 2)]) blog_mounted) 2
     = Some "/blog/admin".
Proof.
  split; [reflexivity|]. split; [vm_compute; eauto|]. split; [discriminate|].
  split; [vm_compute; reflexivity|].
  assert (Ha : 2 ∉ ancestors 2 blog_mounted 1).
  { replace (ancestors 2 blog_mounted 1) with [0] by (vm_compute; reflexivity).
    intros H. apply list_elem_of_singleton in H. discriminate. }
  split; [exact Ha|].
  destruct (path_of_mounted example_ToString example_config blog_mounted 1 2
              (JStr "/admin")) as [_ H];
    [reflexivity|vm_compute; eauto|discriminate|].
  apply (H 2 "/blog"); [vm_compute; reflexivity|exact Ha].
Defined.

(** X25: an application cannot be mounted in itself: [use(p, app)] on
    [app] throws the TypeError of the cyclic prototype from the
    listener of "mount", when the Layer of the mount is on the stack
    already. *)
Theorem self_mount_throws C st this p :
  is_function (first_leaf p) = false ->
  listeners_for this "mount" st = [Onmount] ->
  is_Some (apps st !! this) ->
  fst (use C this [p; JFun (AppFn this)] st)
  = Throw (TypeError "Cyclic __proto__ value")
  /\ layers_of this (exec (use C this [p; JFun (AppFn this)]) st)
     = layers_of this (exec (lazyrouter C this) st)
       ++ [use_layer p (AppFn this)].
Proof.
  intros Hp Hl Hthis. split.
  - rewrite (use_mount_run C this this p st Hp Hl).
    set (bm := before_mount C this this p st).
    assert (Ho : fst (onmount this this bm) = Throw (TypeError "Cyclic __proto__ value")).
    { unfold onmount, bind, gets. cbv beta iota.
      destruct (is_true (settings_get this trustProxyDefaultSymbol bm)
                && is_function (settings_get this "trust proxy fn" bm));
        unfold delete_setting, modify, ret, setPrototypeOf; cbv beta iota;
        match goal with
        | |- context [proto_reaches PRequest ?n ?s this this] =>
            replace (proto_reaches PRequest n s this this) with true
              by (destruct n; simpl; rewrite Nat.eqb_refl; reflexivity)
        end; reflexivity. }
    destruct (onmount this this bm) as [[[]|e] st2]; simpl in Ho;
      [discriminate|]. simpl. congruence.
  - rewrite (use_mount_exec C this this p st Hp), use_each_app_exec.
    destruct (lazyrouter_router C this st Hthis) as [r Hr].
    set (st1 := exec (lazyrouter C this) st) in *.
    match goal with
    | |- layers_of this (exec (emit this "mount" this) ?s) = _ =>
        destruct (same_routing_emit this "mount" this s) as (_ & Hro & _);
        assert (Hs3 : router_of this s
                      = Some (mkRouter
                                (stack r ++ [mkLayer p false (HFunc (MountedApp this))])
                                (caseSensitive r) (strict r)))
          by (apply router_of_push;
              rewrite !router_of_upd_frame by reflexivity; exact Hr)
    end.
    unfold layers_of. rewrite <- Hro, Hs3, Hr. reflexivity.
Qed.

Lemma self_mount_throws_witness :
  is_function (first_leaf (JStr "/loop")) = false
  /\ listeners_for 0 "mount" one_app = [Onmount]
  /\ is_Some (apps one_app !! 0)
  /\ fst (use example_config 0 [JStr "/loop"; JFun (AppFn 0)] one_app)
     = Throw (TypeError "Cyclic __proto__ value")
  /\ layers_of 0 (exec (use example_config 0 [JStr "/loop"; JFun (AppFn 0)]) one_app)
     = layers_of 0 (exec (lazyrouter example_config 0) one_app)
       ++ [use_layer (JStr "/loop") (AppFn 0)].
Proof.
  split; [reflexivity|]. split; [reflexivity|]. split; [vm_compute; eauto|].
  apply (self_mount_throws example_config one_app 0 (JStr "/loop"));
    [reflexivity|reflexivity|vm_compute; eauto].
Defined.

End ApplicationRestFacts.
